(** * Schema bridge of the express backend template

    A shallow embedding of [src/utils/zodToOpenAPI.js] (the converter from
    Zod schema descriptions to OpenAPI schema objects) and of
    [src/utils/routeDoc.js] (the aggregator from route declarations to
    OpenAPI operations), with the properties stated about them.

    Conventions of the embedding:
    - a JavaScript object literal that is built key by key is an
      association list with unique keys, in the order in which
      [Object.entries] lists them; [set_field] is the assignment
      [o[k] = v];
    - a JavaScript object used as a dictionary keyed by status code or by
      path is a [gmap string _]: its own properties, without the order in
      which they were added.  Where the code reads a key that an object
      may inherit (the guard of [generateDocs]) or assigns the key
      [__proto__] (the loop of [convertObject]), the embedding follows
      the code: such a key is never an own property;
    - [undefined]/[null] fields are [option]s, and truthiness tests are
      written out;
    - text is ASCII: [toUpperCase]/[toLowerCase] act on the letters a-z
      and A-Z. *)

From Stdlib Require Import ZArith Ascii String List Bool Lia.
From stdpp Require Import base gmap strings list fin_maps.

Set Warnings "-register-all,-clear-no-such-hyp".

Local Open Scope string_scope.
Local Open Scope list_scope.

(** ** JSON values *)

Inductive json : Type :=
| JNull
| JBool (b : bool)
| JNum (n : Z)
| JStr (s : string)
| JArr (items : list json)
| JObj (fields : list (string * json)).

(** The own enumerable properties of an object, in insertion order. *)
Abbreviation obj := (list (string * json)).

(** [o[k]]: [None] stands for [undefined]. *)
Fixpoint get_field (k : string) (o : obj) : option json :=
  match o with
  | [] => None
  | (k', v) :: o' => if String.eqb k' k then Some v else get_field k o'
  end.

(** [o[k] = v]: an existing key keeps its position, a new key goes last. *)
Fixpoint set_field (k : string) (v : json) (o : obj) : obj :=
  match o with
  | [] => [(k, v)]
  | (k', v') :: o' =>
      if String.eqb k' k then (k', v) :: o' else (k', v') :: set_field k v o'
  end.

(** [{ ...o, ...extra }] and [Object.assign(o, extra)] on literals. *)
Definition spread (o extra : obj) : obj :=
  fold_left (fun acc kv => set_field (fst kv) (snd kv) acc) extra o.

(** [typeof v]. *)
Definition typeof (v : json) : string :=
  match v with
  | JNull => "object"
  | JBool _ => "boolean"
  | JNum _ => "number"
  | JStr _ => "string"
  | JArr _ => "object"
  | JObj _ => "object"
  end.

(** Truthiness of an optional string: [undefined] and [""] are falsy. *)
Definition truthy (s : option string) : bool :=
  match s with
  | Some s' => negb (String.eqb s' "")
  | None => false
  end.

(** [a || b] on optional strings. *)
Definition js_or (a b : option string) : option string :=
  if truthy a then a else b.

(** ** Strings *)

Definition upper_ascii (c : ascii) : ascii :=
  let n := N_of_ascii c in
  if ((97 <=? n) && (n <=? 122))%N then ascii_of_N (n - 32) else c.

Definition lower_ascii (c : ascii) : ascii :=
  let n := N_of_ascii c in
  if ((65 <=? n) && (n <=? 90))%N then ascii_of_N (n + 32) else c.

Fixpoint toUpperCase (s : string) : string :=
  match s with
  | EmptyString => EmptyString
  | String c s' => String (upper_ascii c) (toUpperCase s')
  end.

Fixpoint toLowerCase (s : string) : string :=
  match s with
  | EmptyString => EmptyString
  | String c s' => String (lower_ascii c) (toLowerCase s')
  end.

(** [s.split(sep)] for a one-character separator. *)
Fixpoint str_split (sep : ascii) (s : string) : list string :=
  match s with
  | EmptyString => [EmptyString]
  | String c s' =>
      if Ascii.eqb c sep then EmptyString :: str_split sep s'
      else match str_split sep s' with
           | [] => [String c EmptyString]
           | h :: t => String c h :: t
           end
  end.

(** [s.startsWith(c)] for a one-character prefix. *)
Definition startsWith (c : ascii) (s : string) : bool :=
  match s with
  | EmptyString => false
  | String c' _ => Ascii.eqb c' c
  end.

(** [s.charAt(0)]: the empty string when [s] is empty. *)
Definition charAt0 (s : string) : string :=
  match s with
  | EmptyString => EmptyString
  | String c _ => String c EmptyString
  end.

(** [s.slice(a, b)] with the negative-index rule of JavaScript. *)
Definition slice (a b : Z) (s : string) : string :=
  let len := Z.of_nat (String.length s) in
  let from := if (a <? 0)%Z then Z.max (len + a) 0 else Z.min a len in
  let to := if (b <? 0)%Z then Z.max (len + b) 0 else Z.min b len in
  substring (Z.to_nat from) (Z.to_nat (Z.max (to - from) 0)) s.

(** [s.slice(a)]. *)
Definition slice_from (a : Z) (s : string) : string :=
  slice a (Z.of_nat (String.length s)) s.

(** [parts.join('')]. *)
Definition join (parts : list string) : string :=
  fold_right String.append EmptyString parts.

(** ** The input grammar: Zod schema objects

    [zod] is a value that is neither [null] nor [undefined]: either a
    value without a (truthy) [_def], or an object whose [_def] carries a
    description and the fields of its [typeName].  [zdef] has one
    constructor per [case] label of [convert], named after the label, and
    [ZodOther] for a [_def] whose [typeName] is no label (or is missing). *)

Record check : Type := Check {
  kind : string;
  value : json;
  inclusive : option bool;
  regex_source : string;
  version : option string;
}.

Inductive zod : Type :=
| NoDef
| Def (description : option string) (d : zdef)
with zdef : Type :=
| ZodString (checks : list check)
| ZodNumber (checks : list check)
| ZodInt (checks : list check)
| ZodBoolean
| ZodDate
| ZodEnum (values : list json)
| ZodNativeEnum (values : list (string * json))
| ZodLiteral (value : json)
| ZodObject (shape : list (string * zod)) (unknownKeys : string)
| ZodArray (type : zod) (minLength maxLength : option json)
| ZodRecord (valueType : zod)
| ZodOptional (innerType : zod)
| ZodNullable (innerType : zod)
| ZodDefault (innerType : zod) (defaultValue : option json)
| ZodUnion (options : list zod)
| ZodIntersection (left right : zod)
| ZodEffects (schema : zod)
| ZodAny
| ZodUnknown
| ZodVoid
| ZodUndefined
| ZodOther (typeName : option string).


(** [zodSchema._def?.typeName]. *)
Definition typeNameOf (z : zod) : option string :=
  match z with
  | NoDef => None
  | Def _ d =>
      match d with
      | ZodString _ => Some "ZodString"
      | ZodNumber _ => Some "ZodNumber"
      | ZodInt _ => Some "ZodInt"
      | ZodBoolean => Some "ZodBoolean"
      | ZodDate => Some "ZodDate"
      | ZodEnum _ => Some "ZodEnum"
      | ZodNativeEnum _ => Some "ZodNativeEnum"
      | ZodLiteral _ => Some "ZodLiteral"
      | ZodObject _ _ => Some "ZodObject"
      | ZodArray _ _ _ => Some "ZodArray"
      | ZodRecord _ => Some "ZodRecord"
      | ZodOptional _ => Some "ZodOptional"
      | ZodNullable _ => Some "ZodNullable"
      | ZodDefault _ _ => Some "ZodDefault"
      | ZodUnion _ => Some "ZodUnion"
      | ZodIntersection _ _ => Some "ZodIntersection"
      | ZodEffects _ => Some "ZodEffects"
      | ZodAny => Some "ZodAny"
      | ZodUnknown => Some "ZodUnknown"
      | ZodVoid => Some "ZodVoid"
      | ZodUndefined => Some "ZodUndefined"
      | ZodOther tn => tn
      end
  end.


(** ** The converter, [ZodToOpenAPI] *)

Module ZodToOpenAPI.

(** One turn of the loop in [convertString]: the [switch] on [check.kind]. *)
Definition convertString_step (schema : obj) (c : check) : obj :=
  let k := kind c in
  if String.eqb k "min" then set_field "minLength" (value c) schema
  else if String.eqb k "max" then set_field "maxLength" (value c) schema
  else if String.eqb k "length" then
    set_field "maxLength" (value c) (set_field "minLength" (value c) schema)
  else if String.eqb k "email" then set_field "format" (JStr "email") schema
  else if String.eqb k "url" then set_field "format" (JStr "uri") schema
  else if String.eqb k "uuid" then set_field "format" (JStr "uuid") schema
  else if String.eqb k "cuid" || String.eqb k "cuid2" then
    set_field "format" (JStr "cuid") schema
  else if String.eqb k "ulid" then set_field "format" (JStr "ulid") schema
  else if String.eqb k "regex" then
    set_field "pattern" (JStr (regex_source c)) schema
  else if String.eqb k "datetime" then
    set_field "format" (JStr "date-time") schema
  else if String.eqb k "date" then set_field "format" (JStr "date") schema
  else if String.eqb k "time" then set_field "format" (JStr "time") schema
  else if String.eqb k "ip" then
    set_field "format"
      (JStr (match version c with
             | Some v => if String.eqb v "v4" then "ipv4"
                         else if String.eqb v "v6" then "ipv6" else "ip"
             | None => "ip"
             end)) schema
  else schema.

Definition convertString (checks : list check) : obj :=
  fold_left convertString_step checks [("type", JStr "string")].

(** One turn of the loop in [getNumberConstraints]. *)
Definition getNumberConstraints_step (constraints : obj) (c : check) : obj :=
  let k := kind c in
  if String.eqb k "min" then
    match inclusive c with
    | Some false => set_field "exclusiveMinimum" (value c) constraints
    | _ => set_field "minimum" (value c) constraints
    end
  else if String.eqb k "max" then
    match inclusive c with
    | Some false => set_field "exclusiveMaximum" (value c) constraints
    | _ => set_field "maximum" (value c) constraints
    end
  else if String.eqb k "int" then
    set_field "type" (JStr "integer") constraints
  else if String.eqb k "multipleOf" then
    set_field "multipleOf" (value c) constraints
  else constraints.

Definition getNumberConstraints (checks : list check) : obj :=
  fold_left getNumberConstraints_step checks [].

Definition convertNumber (checks : list check) : obj :=
  spread [("type", JStr "number")] (getNumberConstraints checks).

(** [isOptional]: a test on the node's own [typeName] only. *)
Definition isOptional (zodSchema : zod) : bool :=
  match typeNameOf zodSchema with
  | Some typeName =>
      String.eqb typeName "ZodOptional" || String.eqb typeName "ZodNullable"
      || String.eqb typeName "ZodDefault"
  | None => false
  end.

(** One turn of the loop in [convertObject]: [properties[key] = ...] and
    the push on [required].  The assignment adds or replaces the own
    property [key], except for the key [__proto__], where it sets the
    prototype of [properties] and leaves its own properties as they
    are. *)
Definition convertObject_step (convert : zod -> obj)
    (acc : obj * list string) (entry : string * zod) : obj * list string :=
  let '(properties, required) := acc in
  let '(key, value) := entry in
  (if String.eqb key "__proto__" then properties
   else set_field key (JObj (convert value)) properties,
   if isOptional value then required else required ++ [key]).

(** [convertObject], over the entries of [_def.shape()] in the order in
    which [Object.entries] lists them; [convert] is the recursive call. *)
Definition convertObject (convert : zod -> obj)
    (shape : list (string * zod)) (unknownKeys : string) : obj :=
  let '(properties, required) :=
    fold_left (convertObject_step convert) shape ([], []) in
  let schema := [("type", JStr "object"); ("properties", JObj properties)] in
  let schema :=
    match required with
    | [] => schema
    | _ :: _ => set_field "required" (JArr (map JStr required)) schema
    end in
  if String.eqb unknownKeys "passthrough" then
    set_field "additionalProperties" (JBool true) schema
  else if String.eqb unknownKeys "strict" then
    set_field "additionalProperties" (JBool false) schema
  else schema.

(** [if (description) schema.description = description]. *)
Definition add_description (description : option string) (schema : obj) : obj :=
  match description with
  | Some text => if truthy description
                 then set_field "description" (JStr text) schema else schema
  | None => schema
  end.

(** [convert] on a value that has passed the test [!zodSchema]: the
    [switch] on [_def.typeName], then the description. *)
Fixpoint convertNode (zodSchema : zod) : obj :=
  match zodSchema with
  | NoDef => [("type", JStr "object")]
  | Def description d =>
      let schema :=
        match d with
        | ZodString checks => convertString checks
        | ZodNumber checks => convertNumber checks
        | ZodInt checks =>
            spread [("type", JStr "integer")] (getNumberConstraints checks)
        | ZodBoolean => [("type", JStr "boolean")]
        | ZodDate => [("type", JStr "string"); ("format", JStr "date-time")]
        | ZodEnum values => [("type", JStr "string"); ("enum", JArr values)]
        | ZodNativeEnum values =>
            [("type", JStr "string"); ("enum", JArr (map snd values))]
        | ZodLiteral value =>
            [("type", JStr (typeof value)); ("enum", JArr [value])]
        | ZodObject shape unknownKeys =>
            convertObject convertNode shape unknownKeys
        | ZodArray type minLength maxLength =>
            let schema :=
              [("type", JStr "array"); ("items", JObj (convertNode type))] in
            let schema :=
              match minLength with
              | Some v => set_field "minItems" v schema
              | None => schema
              end in
            match maxLength with
            | Some v => set_field "maxItems" v schema
            | None => schema
            end
        | ZodRecord valueType =>
            [("type", JStr "object");
             ("additionalProperties", JObj (convertNode valueType))]
        | ZodOptional innerType => convertNode innerType
        | ZodNullable innerType =>
            set_field "nullable" (JBool true) (convertNode innerType)
        | ZodDefault innerType defaultValue =>
            let schema := convertNode innerType in
            match defaultValue with
            | Some v => set_field "default" v schema
            | None => schema
            end
        | ZodUnion options =>
            [("oneOf", JArr (map (fun opt => JObj (convertNode opt)) options))]
        | ZodIntersection lhs rhs =>
            [("allOf", JArr [JObj (convertNode lhs); JObj (convertNode rhs)])]
        | ZodEffects schema => convertNode schema
        | ZodAny => []
        | ZodUnknown => []
        | ZodVoid => [("type", JStr "null")]
        | ZodUndefined => [("type", JStr "null")]
        | ZodOther _ => [("type", JStr "string")]
        end in
      add_description description schema
  end.

(** [ZodToOpenAPI.convert]: [None] is a falsy argument ([null],
    [undefined]). *)
Definition convert (zodSchema : option zod) : obj :=
  match zodSchema with
  | None => [("type", JStr "object")]
  | Some z => convertNode z
  end.

End ZodToOpenAPI.

Import ZodToOpenAPI.

(** ** The aggregator, [routeDoc] *)

Module RouteDoc.

(** The [config] argument of [createRoute]; [None] is a key left out. *)
Record RouteConfig : Type := {
  cfg_summary : option string;
  cfg_description : option string;
  cfg_tags : option (list string);
  cfg_auth : option bool;
  cfg_body : option zod;
  cfg_query : option zod;
  cfg_params : option zod;
  cfg_response : option zod;
  cfg_responses : option (gmap string json);
}.

(** The route definition that [createRoute] returns. *)
Record Route : Type := {
  method : string;
  path : string;
  summary : option string;
  description : option string;
  tags : list string;
  auth : bool;
  bodySchema : option zod;
  querySchema : option zod;
  paramsSchema : option zod;
  responseSchema : option zod;
  customResponses : gmap string json;
}.

Definition createRoute (method_ path_ : string) (config : RouteConfig) : Route :=
  {| method := toLowerCase method_;
     path := path_;
     summary := cfg_summary config;
     description := js_or (cfg_description config) (cfg_summary config);
     tags := default [] (cfg_tags config);
     auth := default false (cfg_auth config);
     bodySchema := cfg_body config;
     querySchema := cfg_query config;
     paramsSchema := cfg_params config;
     responseSchema := cfg_response config;
     customResponses := default ∅ (cfg_responses config) |}.

(** The helpers of [api]. *)
Definition api_get := createRoute "GET".
Definition api_post := createRoute "POST".
Definition api_put := createRoute "PUT".
Definition api_patch := createRoute "PATCH".
Definition api_delete := createRoute "DELETE".

(** One entry of [operation.parameters]. *)
Record Param : Type := {
  p_name : string;
  p_in : string;
  p_required : bool;
  p_schema : json;
  p_description : option string;
}.

(** The emitted operation; [None] is a key that was never assigned. *)
Record Operation : Type := {
  op_summary : string;
  op_description : option string;
  op_tags : list string;
  op_operationId : string;
  op_security : option json;
  op_parameters : option (list Param);
  op_requestBody : option json;
  op_responses : gmap string json;
}.

(** The [map] callback of [generateOperationId]. *)
Definition operationId_part (p : string) : string :=
  if startsWith "{" p then
    "By" +:+ toUpperCase (charAt0 (slice 1 (-1) p)) +:+ slice 2 (-1) p
  else toUpperCase (charAt0 p) +:+ slice_from 1 p.

(** [filter(Boolean)] on strings keeps the non-empty ones. *)
Definition nonempty (s : string) : bool := negb (String.eqb s "").

Definition generateOperationId (method_ path_ : string) : string :=
  let parts := List.filter nonempty (str_split "/" path_) in
  let name := join (map operationId_part parts) in
  toLowerCase method_ +:+ name.

(** [required?.includes(name)]. *)
Definition includes (name : string) (required : option json) : bool :=
  match required with
  | Some (JArr items) =>
      existsb (fun item => match item with
                           | JStr s => String.eqb s name
                           | _ => false
                           end) items
  | _ => false
  end.

(** [schema.description || undefined]. *)
Definition description_of (schema : json) : option string :=
  match schema with
  | JObj fields =>
      match get_field "description" fields with
      | Some (JStr s) => if truthy (Some s) then Some s else None
      | _ => None
      end
  | _ => None
  end.

(** [generateParameters]; the converter writes [properties] only as an
    object (lemma [convertNode_properties]). *)
Definition generateParameters (zodSchema : zod) (location : string)
    : list Param :=
  let openApiSchema := convert (Some zodSchema) in
  match get_field "properties" openApiSchema with
  | Some (JObj properties) =>
      map (fun entry : string * json =>
             let '(name, schema) := entry in
             {| p_name := name;
                p_in := location;
                p_required :=
                  includes name (get_field "required" openApiSchema)
                  || String.eqb location "path";
                p_schema := schema;
                p_description := description_of schema |})
          properties
  | _ => []
  end.

(** The envelope of [generateResponseSchema]. *)
Definition envelope (data : json) : json :=
  JObj [("type", JStr "object");
        ("properties",
         JObj [("success",
                JObj [("type", JStr "boolean"); ("example", JBool true)]);
               ("data", data)])].

(** [generateResponseSchema]: a hint with a [_def] is a Zod schema, any
    other hint is documentation only. *)
Definition generateResponseSchema (responseHint : zod) : json :=
  match responseHint with
  | Def _ _ => envelope (JObj (convert (Some responseHint)))
  | NoDef => envelope (JObj [("type", JStr "object")])
  end.

Definition ref (target : string) : json := JObj [("$ref", JStr target)].

Definition successCode (route : Route) : string :=
  if String.eqb (method route) "post" then "201"
  else if String.eqb (method route) "delete" then "204" else "200".

(** [!route.responseSchema] and the like. *)
Definition absent {A : Type} (field : option A) : bool :=
  match field with
  | None => true
  | Some _ => false
  end.

(** The success response of [generateResponses]. *)
Definition successResponse (route : Route) : json :=
  if String.eqb (method route) "delete" && absent (responseSchema route) then
    JObj [("description", JStr "Successfully deleted")]
  else
    JObj [("description", JStr "Successful operation");
          ("content",
           JObj [("application/json",
                  JObj [("schema",
                         match responseSchema route with
                         | Some hint => generateResponseSchema hint
                         | None => ref "#/components/schemas/Success"
                         end)])])].

(** [generateResponses] up to, and not including, the final
    [Object.assign]. *)
Definition computedResponses (route : Route) : gmap string json :=
  let responses : gmap string json := ∅ in
  let responses := <[successCode route := successResponse route]> responses in
  let responses :=
    if auth route then
      <["403" := ref "#/components/responses/ForbiddenError"]>
        (<["401" := ref "#/components/responses/UnauthorizedError"]> responses)
    else responses in
  let responses :=
    match bodySchema route with
    | Some _ => <["422" := ref "#/components/responses/ValidationError"]> responses
    | None => responses
    end in
  let responses :=
    match paramsSchema route with
    | Some _ => <["404" := ref "#/components/responses/NotFoundError"]> responses
    | None => responses
    end in
  <["500" := ref "#/components/responses/ServerError"]> responses.

(** [Object.assign(target, source)] on dictionaries: the keys of [source]
    win. *)
Definition Object_assign (target source : gmap string json) : gmap string json :=
  source ∪ target.

Definition generateResponses (route : Route) : gmap string json :=
  Object_assign (computedResponses route) (customResponses route).

(** The [parameters] array that [generateOperation] fills: the path
    parameters, then the query parameters. *)
Definition routeParameters (route : Route) : list Param :=
  match paramsSchema route with
  | Some s => generateParameters s "path"
  | None => []
  end ++
  match querySchema route with
  | Some s => generateParameters s "query"
  | None => []
  end.

Definition generateOperation (route : Route) : Operation :=
  let parameters := routeParameters route in
  {| op_summary :=
       if truthy (summary route)
       then default "" (summary route)
       else toUpperCase (method route) +:+ " " +:+ path route;
     op_description := description route;
     op_tags := match tags route with [] => ["Default"] | _ :: _ => tags route end;
     op_operationId := generateOperationId (method route) (path route);
     op_security :=
       if auth route then Some (JArr [JObj [("BearerAuth", JArr [])]])
       else None;
     op_parameters :=
       match parameters with [] => None | _ :: _ => Some parameters end;
     op_requestBody :=
       match bodySchema route with
       | Some body =>
           if existsb (String.eqb (method route)) ["post"; "put"; "patch"]
           then Some (JObj [("required", JBool true);
                            ("content",
                             JObj [("application/json",
                                    JObj [("schema",
                                           JObj (convert (Some body)))])])])
           else None
       | None => None
       end;
     op_responses := generateResponses route |}.

(** The names that every object inherits from [Object.prototype]. *)
Definition inherited_names : list string :=
  [ "constructor"; "__proto__"; "hasOwnProperty"; "isPrototypeOf";
    "propertyIsEnumerable"; "toLocaleString"; "toString"; "valueOf";
    "__defineGetter__"; "__defineSetter__"; "__lookupGetter__";
    "__lookupSetter__" ].

Definition inherited (key : string) : bool :=
  existsb (String.eqb key) inherited_names.

(** One turn of the loop in [generateDocs].  [paths[route.path]] is
    truthy when the path is an own key of [paths] and also when it is an
    inherited name; for an inherited name no key is created and the write
    lands on the inherited value, outside [paths] (what that write changes
    elsewhere is not followed). *)
Definition generateDocs_step (paths : gmap string (gmap string Operation))
    (route : Route) : gmap string (gmap string Operation) :=
  let paths :=
    match paths !! path route with
    | None =>
        if inherited (path route) then paths else <[path route := ∅]> paths
    | Some _ => paths
    end in
  match paths !! path route with
  | Some operations =>
      <[path route := <[method route := generateOperation route]> operations]>
        paths
  | None => paths
  end.

Definition generateDocs (routes : list Route)
    : gmap string (gmap string Operation) :=
  fold_left generateDocs_step routes ∅.

End RouteDoc.

Import RouteDoc.

(** ** The deprecated helper, [AutoDocsGenerator] *)

Module AutoDocs.

(** The argument of [doc]: a route configuration that also carries the
    keys [method] and [path]. *)
Record DocConfig : Type := {
  doc_method : option string;
  doc_path : string;
  doc_route : RouteConfig;
}.

(** [routeDoc.api[key]] among the own properties of [api]: [None] is
    [undefined].  The inherited [api.constructor] is left out. *)
Definition api (key : string) : option (string -> RouteConfig -> Route) :=
  if String.eqb key "get" then Some api_get
  else if String.eqb key "post" then Some api_post
  else if String.eqb key "put" then Some api_put
  else if String.eqb key "patch" then Some api_patch
  else if String.eqb key "delete" then Some api_delete
  else None.

(** [config.method?.toLowerCase() || 'get']. *)
Definition doc_key (config : DocConfig) : string :=
  match doc_method config with
  | Some m => if truthy (Some (toLowerCase m)) then toLowerCase m else "get"
  | None => "get"
  end.

(** [doc]: [None] is the [TypeError] raised by calling [undefined]. *)
Definition doc (config : DocConfig) : option Route :=
  match api (doc_key config) with
  | Some helper => Some (helper (doc_path config) (doc_route config))
  | None => None
  end.

(** [route] and [generatePaths]. *)
Definition route := api_post.
Definition generatePaths := generateDocs.

End AutoDocs.

(** ** Definitions for the statements *)

(** The node's own discriminant is [optional], [nullable] or [default]. *)
Definition wrapper_discriminant (z : zod) : bool :=
  bool_decide (typeNameOf z ∈
    [Some "ZodOptional"; Some "ZodNullable"; Some "ZodDefault"]).

(** The property names to be listed, in the order of the shape. *)
Definition required_names (shape : list (string * zod)) : list string :=
  map fst (List.filter (fun entry => negb (wrapper_discriminant (snd entry))) shape).

(** The first character in upper case. *)
Definition capitalize (s : string) : string :=
  match s with
  | EmptyString => EmptyString
  | String c rest => String (upper_ascii c) rest
  end.

(** The string without its last character, and that character. *)
Fixpoint unsnoc (s : string) : option (string * ascii) :=
  match s with
  | EmptyString => None
  | String c rest =>
      match unsnoc rest with
      | None => Some (EmptyString, c)
      | Some (init, final) => Some (String c init, final)
      end
  end.

(** [Some name] exactly when the segment is written [{name}]. *)
Definition placeholder_name (segment : string) : option string :=
  match segment with
  | EmptyString => None
  | String c rest =>
      if Ascii.eqb c "{" then
        match unsnoc rest with
        | Some (name, final) => if Ascii.eqb final "}" then Some name else None
        | None => None
        end
      else None
  end.

(** The transform of one segment in the words of the specification: a
    segment is capitalized, a placeholder [{name}] becomes [By] and the
    capitalized name. *)
Definition pascal_segment (segment : string) : string :=
  match placeholder_name segment with
  | Some name => "By" +:+ capitalize name
  | None => capitalize segment
  end.

(** The non-empty segments of a path. *)
Definition segments (path_ : string) : list string :=
  List.filter nonempty (str_split "/" path_).

(** The PascalCase transform of a path. *)
Definition pascalCase (path_ : string) : string :=
  join (map pascal_segment (segments path_)).

(** The operation identifier as the specification words it. *)
Definition operationId_spec (method_ path_ : string) : string :=
  toLowerCase method_ +:+ pascalCase path_.

(** Every segment that begins with an opening brace is a complete
    placeholder [{name}]. *)
Definition placeholders_closed (path_ : string) : bool :=
  forallb (fun segment =>
             negb (startsWith "{" segment)
             || match placeholder_name segment with
                | Some _ => true
                | None => false
                end)
          (segments path_).

(** What the converter leaves under [properties]: nothing, or an object. *)
Definition object_or_absent (field : option json) : Prop :=
  match field with
  | None => True
  | Some (JObj _) => True
  | Some _ => False
  end.

(** [paths[p][m]], with [None] for [undefined]. *)
Definition lookup_operation (paths : gmap string (gmap string Operation))
    (p m : string) : option Operation :=
  paths !! p ≫= fun operations => operations !! m.

(** The route is declared at path [p] with method [m]. *)
Definition declared_at (p m : string) (route : Route) : bool :=
  String.eqb (path route) p && String.eqb (method route) m.

(** The latest route of the list declared at path [p] with method [m]. *)
Definition latest_route (p m : string) (routes : list Route) : option Route :=
  last (List.filter (declared_at p m) routes).

(** What a check of [convertString] writes under each key, if anything. *)
Definition written_minLength (c : check) : option json :=
  if String.eqb (kind c) "min" || String.eqb (kind c) "length"
  then Some (value c) else None.

Definition written_maxLength (c : check) : option json :=
  if String.eqb (kind c) "max" || String.eqb (kind c) "length"
  then Some (value c) else None.

Definition written_pattern (c : check) : option json :=
  if String.eqb (kind c) "regex" then Some (JStr (regex_source c)) else None.

Definition written_format (c : check) : option json :=
  let k := kind c in
  if String.eqb k "email" then Some (JStr "email")
  else if String.eqb k "url" then Some (JStr "uri")
  else if String.eqb k "uuid" then Some (JStr "uuid")
  else if String.eqb k "cuid" || String.eqb k "cuid2" then Some (JStr "cuid")
  else if String.eqb k "ulid" then Some (JStr "ulid")
  else if String.eqb k "datetime" then Some (JStr "date-time")
  else if String.eqb k "date" then Some (JStr "date")
  else if String.eqb k "time" then Some (JStr "time")
  else if String.eqb k "ip" then
    Some (JStr (if bool_decide (version c = Some "v4") then "ipv4"
                else if bool_decide (version c = Some "v6") then "ipv6"
                else "ip"))
  else None.

(** The kinds that the loop of [convertString] has a case for. *)
Definition string_kinds : list string :=
  [ "min"; "max"; "length"; "email"; "url"; "uuid"; "cuid"; "cuid2"; "ulid";
    "regex"; "datetime"; "date"; "time"; "ip" ].

(** The kinds that the loop of [getNumberConstraints] has a case for. *)
Definition number_kinds : list string := [ "min"; "max"; "int"; "multipleOf" ].

Definition kind_in (kinds : list string) (c : check) : bool :=
  existsb (String.eqb (kind c)) kinds.

(** The bound is marked exclusive: [check.inclusive === false]. *)
Definition exclusive (c : check) : bool :=
  match inclusive c with
  | Some false => true
  | _ => false
  end.

(** What a check of [getNumberConstraints] writes under each bound. *)
Definition written_bound (kind_ : string) (exclusive_ : bool) (c : check)
    : option json :=
  if String.eqb (kind c) kind_ && Bool.eqb (exclusive c) exclusive_
  then Some (value c) else None.

Definition written_multipleOf (c : check) : option json :=
  if String.eqb (kind c) "multipleOf" then Some (value c) else None.

(** The check is an [int] check. *)
Definition is_int_check (c : check) : bool := String.eqb (kind c) "int".

(** A [required] list is a non-empty list of names, each of them a key of
    the [properties] object beside it; the name [__proto__] is the one
    exception, for it is never a key of [properties]. *)
Definition required_within_properties (schema : obj) : Prop :=
  match get_field "required" schema with
  | None => True
  | Some (JArr names) =>
      names <> [] /\
      exists properties,
        get_field "properties" schema = Some (JObj properties) /\
        Forall (fun item => exists name,
                  item = JStr name /\
                  (name <> "__proto__" -> is_Some (get_field name properties)))
               names
  | Some _ => False
  end.

(** The parameter that an object property gives rise to. *)
Definition property_parameter (location : string) (entry : string * zod) : Param :=
  {| p_name := fst entry;
     p_in := location;
     p_required :=
       negb (wrapper_discriminant (snd entry)) || String.eqb location "path";
     p_schema := JObj (convert (Some (snd entry)));
     p_description := description_of (JObj (convert (Some (snd entry)))) |}.

(** The four wrappers whose conversion starts from that of the inner node. *)
Definition wraps (d : zdef) (x : zod) : Prop :=
  d = ZodOptional x \/ d = ZodNullable x \/ d = ZodEffects x
  \/ exists defaultValue, d = ZodDefault x defaultValue.

(** The path of the route begins with a slash, as a path template does. *)
Definition slash_path (route : Route) : Prop :=
  startsWith "/" (path route) = true.

(** The text holds ASCII characters only. *)
Fixpoint is_ascii (s : string) : bool :=
  match s with
  | EmptyString => true
  | String c rest => (N_of_ascii c <? 128)%N && is_ascii rest
  end.

(** The path and method under which a route is filed. *)
Definition route_key (route : Route) : string * string :=
  (path route, method route).

(** No path is bound to an empty method map. *)
Definition methods_not_empty (paths : gmap string (gmap string Operation)) : Prop :=
  forall p operations, paths !! p = Some operations -> operations <> ∅.

(** The methods that [api] has a helper for. *)
Definition api_methods : list string := [ "get"; "post"; "put"; "patch"; "delete" ].

(** ** Sample routes *)

Definition sample_config : RouteConfig :=
  {| cfg_summary := None; cfg_description := None; cfg_tags := None;
     cfg_auth := Some true;
     cfg_body := Some (Def None (ZodObject [("name", Def None (ZodString []))] "strip"));
     cfg_query := None;
     cfg_params := Some (Def None (ZodObject [("id", Def None (ZodString []))] "strip"));
     cfg_response := None; cfg_responses := None |}.

Definition delete_config (hint : option zod) : RouteConfig :=
  {| cfg_summary := Some "Delete user"; cfg_description := None;
     cfg_tags := Some ["Users"]; cfg_auth := Some true; cfg_body := None;
     cfg_query := None;
     cfg_params := Some (Def None (ZodObject [("id", Def None (ZodString []))] "strip"));
     cfg_response := hint; cfg_responses := None |}.

Definition override_config : RouteConfig :=
  {| cfg_summary := None; cfg_description := None; cfg_tags := None;
     cfg_auth := None; cfg_body := None; cfg_query := None;
     cfg_params := None; cfg_response := None;
     cfg_responses :=
       Some {[ "422" := JObj [("description", JStr "Malformed filter")] ]} |}.

Definition patch_config : RouteConfig :=
  {| cfg_summary := None; cfg_description := Some "Update a user";
     cfg_tags := None; cfg_auth := None; cfg_body := None;
     cfg_query := None; cfg_params := None; cfg_response := None;
     cfg_responses := None |}.

Definition union_query_config : RouteConfig :=
  {| cfg_summary := None; cfg_description := None; cfg_tags := None;
     cfg_auth := None; cfg_body := None;
     cfg_query :=
       Some (Def None (ZodUnion [Def None (ZodString []); Def None ZodBoolean]));
     cfg_params := Some NoDef;
     cfg_response := None; cfg_responses := None |}.

(** * Properties *)

(** ** Objects *)

Section Objects.
Implicit Types (k : string) (v : json) (o : obj).

Lemma get_set_eq k v o : get_field k (set_field k v o) = Some v.
Proof.
  induction o as [|[k' v'] o IH]; simpl.
  - by rewrite String.eqb_refl.
  - destruct (String.eqb k' k) eqn:E; simpl; rewrite E; [done | apply IH].
Qed.

Lemma get_set_ne k k' v o :
  k <> k' -> get_field k' (set_field k v o) = get_field k' o.
Proof.
  intros Hne. induction o as [|[k0 v0] o IH]; simpl.
  - apply String.eqb_neq in Hne. by rewrite Hne.
  - destruct (String.eqb k0 k) eqn:E; simpl.
    + apply String.eqb_eq in E. subst k0.
      apply String.eqb_neq in Hne. by rewrite Hne.
    + by rewrite IH.
Qed.

Lemma get_add_description k (text : option string) o :
  k <> "description" ->
  get_field k (add_description text o) = get_field k o.
Proof.
  intros Hk. unfold add_description.
  destruct text as [s|]; [|done].
  destruct (truthy (Some s)); [|done].
  apply get_set_ne. congruence.
Qed.

Lemma set_get_same k v o : get_field k o = Some v -> set_field k v o = o.
Proof.
  induction o as [|[k' v'] o IH]; simpl; [done|].
  destruct (String.eqb k' k); [by intros [= ->]|].
  intros Hget. by rewrite IH.
Qed.

Lemma add_description_idem (text : option string) o :
  add_description text (add_description text o) = add_description text o.
Proof.
  unfold add_description. destruct text as [s|]; [|done].
  destruct (truthy (Some s)); [|done].
  apply set_get_same, get_set_eq.
Qed.
End Objects.

(** ** The [required] list of an object schema *)

Lemma isOptional_discriminant z : isOptional z = wrapper_discriminant z.
Proof.
  unfold isOptional, wrapper_discriminant.
  destruct (typeNameOf z) as [tn|].
  - destruct (String.eqb tn "ZodOptional") eqn:E1;
      [apply String.eqb_eq in E1; by subst|].
    destruct (String.eqb tn "ZodNullable") eqn:E2;
      [apply String.eqb_eq in E2; by subst|].
    destruct (String.eqb tn "ZodDefault") eqn:E3;
      [apply String.eqb_eq in E3; by subst|].
    apply String.eqb_neq in E1, E2, E3. simpl.
    symmetry. apply bool_decide_eq_false.
    rewrite !elem_of_cons, elem_of_nil. intros [?|[?|[?|[]]]]; congruence.
  - symmetry. apply bool_decide_eq_false.
    rewrite !elem_of_cons, elem_of_nil. intros [?|[?|[?|[]]]]; congruence.
Qed.

(** The loop of [convertObject] pushes exactly the keys of the entries
    that are not [isOptional], after what [required] already holds. *)
Lemma convertObject_loop_required (cv : zod -> obj) shape properties required :
  snd (fold_left (convertObject_step cv) shape (properties, required))
  = required ++ required_names shape.
Proof.
  revert properties required.
  induction shape as [|[key value] shape IH]; intros properties required.
  - simpl. by rewrite app_nil_r.
  - simpl fold_left. rewrite IH. unfold required_names. simpl.
    rewrite <- isOptional_discriminant.
    destruct (isOptional value); simpl; [done|].
    by rewrite <- app_assoc.
Qed.

Lemma convertObject_required (cv : zod -> obj) shape unknownKeys :
  get_field "required" (convertObject cv shape unknownKeys)
  = match required_names shape with
    | [] => None
    | names => Some (JArr (map JStr names))
    end.
Proof.
  unfold convertObject.
  pose proof (convertObject_loop_required cv shape [] []) as Hloop.
  destruct (fold_left _ shape ([], [])) as [properties required].
  simpl in Hloop. subst required.
  destruct (String.eqb unknownKeys "passthrough");
    [rewrite get_set_ne by discriminate|
     destruct (String.eqb unknownKeys "strict");
       [rewrite get_set_ne by discriminate|]];
    by destruct (required_names shape).
Qed.

(** C1. For every object node, the [required] field of the converted
    node lists exactly the names of the properties whose own discriminant
    is not [ZodOptional], [ZodNullable] or [ZodDefault], in the order of
    the shape; when there is no such property the key [required] is not
    set at all.  Only the property's own discriminant counts. *)
Theorem convert_object_required
    (description : option string) (shape : list (string * zod))
    (unknownKeys : string) :
  get_field "required"
    (convert (Some (Def description (ZodObject shape unknownKeys))))
  = match required_names shape with
    | [] => None
    | names => Some (JArr (map JStr names))
    end.
Proof.
  simpl. rewrite get_add_description by discriminate.
  apply convertObject_required.
Qed.

(** Membership in [required], property by property. *)
Lemma required_names_spec shape name :
  name ∈ required_names shape <->
  exists node, (name, node) ∈ shape /\ wrapper_discriminant node = false.
Proof.
  unfold required_names. rewrite list_elem_of_fmap. split.
  - intros [[n node] [-> Hin]]. simpl.
    apply list_elem_of_In, filter_In in Hin as [Hin Hw].
    exists node. split; [by apply list_elem_of_In|].
    by apply negb_true_iff in Hw.
  - intros (node & Hin & Hw). exists (name, node). split; [done|].
    apply list_elem_of_In, filter_In. split; [by apply list_elem_of_In|].
    simpl. by rewrite Hw.
Qed.

(** A wrapper below another node does not count: an effects node around
    an optional one is required, an optional node around anything is not. *)
Example required_one_level :
  get_field "required"
    (convert (Some (Def None (ZodObject
       [("a", Def None (ZodEffects (Def None (ZodOptional (Def None ZodBoolean)))));
        ("b", Def None (ZodOptional (Def None (ZodEffects (Def None ZodBoolean)))));
        ("c", Def None (ZodDefault (Def None (ZodOptional (Def None ZodDate))) None));
        ("d", NoDef)] "strip"))))
  = Some (JArr [JStr "a"; JStr "d"]).
Proof. reflexivity. Qed.

Example required_absent_when_empty :
  convert (Some (Def None (ZodObject
     [("a", Def None (ZodOptional (Def None (ZodString []))));
      ("b", Def None (ZodNullable (Def None ZodBoolean)))] "strip")))
  = [("type", JStr "object");
     ("properties",
      JObj [("a", JObj [("type", JStr "string")]);
            ("b", JObj [("type", JStr "boolean"); ("nullable", JBool true)])])].
Proof. reflexivity. Qed.

(** ** Fallback shapes and wrappers *)

(** The description is written last, over whatever the variant built. *)
Lemma convertNode_optional (description : option string) (x : zod) :
  convertNode (Def description (ZodOptional x))
  = add_description description (convertNode x).
Proof. reflexivity. Qed.

Lemma add_description_falsy (description : option string) (o : obj) :
  truthy description = false -> add_description description o = o.
Proof.
  unfold add_description. destruct description as [s|]; [|done].
  by intros ->.
Qed.

Lemma add_description_truthy (text : string) (o : obj) :
  text <> "" ->
  add_description (Some text) o = set_field "description" (JStr text) o.
Proof.
  intros Hne. unfold add_description, truthy.
  apply String.eqb_neq in Hne. by rewrite Hne.
Qed.




(** A [_def] without any [typeName] also reaches the [default] arm. *)
Example missing_typeName :
  convert (Some (Def None (ZodOther None))) = [("type", JStr "string")].
Proof. reflexivity. Qed.

(** C8, as stated, fails: an optional wrapper that carries a description
    of its own does not convert to what its inner node converts to. *)
Lemma optional_with_description_differs :
  convert (Some (Def (Some "nickname") (ZodOptional (Def None (ZodString [])))))
  <> convert (Some (Def None (ZodString []))).
Proof. discriminate. Qed.

(** C8, amended. Converting an optional wrapper around [x] yields the
    conversion of [x], on which the wrapper's own description, when it is
    a non-empty string, is written as [description].  A wrapper without
    a description, or with the description that [x] itself carries,
    converts exactly as [x] does. *)
Theorem convert_optional (description : option string) (x : zod) :
  convert (Some (Def description (ZodOptional x)))
  = (if truthy description
     then set_field "description" (JStr (default "" description)) (convert (Some x))
     else convert (Some x)) /\
  convert (Some (Def None (ZodOptional x))) = convert (Some x) /\
  (forall d : zdef,
     convert (Some (Def description (ZodOptional (Def description d))))
     = convert (Some (Def description d))).
Proof.
  split; [|split; [reflexivity|]].
  - simpl. unfold add_description.
    destruct description as [text|]; [|done].
    by destruct (truthy (Some text)).
  - intros d. simpl. apply add_description_idem.
Qed.

Example optional_inherits_description :
  convert (Some (Def (Some "nickname")
                   (ZodOptional (Def (Some "nickname") (ZodString [])))))
  = [("type", JStr "string"); ("description", JStr "nickname")].
Proof. reflexivity. Qed.

(** Conversions worked out on concrete nodes. *)
Example string_with_constraints :
  convert (Some (Def None (ZodString
    [Check "min" (JNum 8) None "" None;
     Check "max" (JNum 64) None "" None;
     Check "email" JNull None "" None])))
  = [("type", JStr "string"); ("minLength", JNum 8);
     ("maxLength", JNum 64); ("format", JStr "email")].
Proof. reflexivity. Qed.

Example array_without_bounds :
  convert (Some (Def None (ZodArray (Def None ZodBoolean) None None)))
  = [("type", JStr "array"); ("items", JObj [("type", JStr "boolean")])].
Proof. reflexivity. Qed.

Example nullable_number :
  convert (Some (Def None (ZodNullable (Def None (ZodNumber
    [Check "int" JNull None "" None;
     Check "min" (JNum 0) (Some false) "" None])))))
  = [("type", JStr "integer"); ("exclusiveMinimum", JNum 0);
     ("nullable", JBool true)].
Proof. reflexivity. Qed.

(** ** Response maps *)

Lemma successCode_cases (route : Route) :
  successCode route = "201" \/ successCode route = "204"
  \/ successCode route = "200".
Proof.
  unfold successCode.
  destruct (String.eqb (method route) "post"); [by left|].
  destruct (String.eqb (method route) "delete"); [right; by left | right; by right].
Qed.

Lemma dom_computedResponses (route : Route) :
  dom (computedResponses route)
  = {[ successCode route; "500" ]}
    ∪ (if auth route then {[ "401"; "403" ]} else ∅)
    ∪ (if absent (bodySchema route) then ∅ else {[ "422" ]})
    ∪ (if absent (paramsSchema route) then ∅ else {[ "404" ]}).
Proof.
  unfold computedResponses.
  destruct (auth route), (bodySchema route), (paramsSchema route);
    rewrite ?dom_insert_L, dom_empty_L; set_solver.
Qed.

(** C3. Before the caller's overrides are applied, the response map of a
    route with the auth flag and a body schema has exactly the keys
    success code, 401, 403, 422 and 500, the success code being 201 for
    method post, 204 for delete and 200 otherwise, and in addition the key
    404 exactly when a params schema is declared; every route has 500. *)
Theorem computed_response_keys (route : Route) :
  "500" ∈ dom (computedResponses route) /\
  (auth route = true -> is_Some (bodySchema route) ->
   let success :=
     if decide (method route = "post") then "201"
     else if decide (method route = "delete") then "204" else "200" in
   dom (computedResponses route)
   = (if absent (paramsSchema route)
      then {[ success; "401"; "403"; "422"; "500" ]}
      else {[ success; "401"; "403"; "422"; "500"; "404" ]}) /\
   ("404" ∈ dom (computedResponses route) <-> is_Some (paramsSchema route))).
Proof.
  rewrite dom_computedResponses. split; [set_solver|].
  intros -> [body ->] success.
  assert (successCode route = success) as ->.
  { unfold successCode, success.
    destruct (decide (method route = "post")) as [->|Hpost]; [done|].
    apply String.eqb_neq in Hpost. rewrite Hpost.
    destruct (decide (method route = "delete")) as [->|Hdel]; [done|].
    apply String.eqb_neq in Hdel. by rewrite Hdel. }
  assert (success <> "404") as Hne.
  { unfold success. repeat case_decide; discriminate. }
  destruct (paramsSchema route) as [params|]; (split; [set_solver|]).
  - split; [by eexists | set_solver].
  - split; [|by intros [? ?]].
    intros Hin. exfalso.
    repeat (apply elem_of_union in Hin as [Hin|Hin]);
      try (apply elem_of_singleton in Hin; by inversion Hin);
      set_solver.
Qed.

Lemma computed_response_keys_witness :
  auth (api_post "/users/{id}/activate" sample_config) = true /\
  is_Some (bodySchema (api_post "/users/{id}/activate" sample_config)) /\
  dom (computedResponses (api_post "/users/{id}/activate" sample_config))
  = {[ "201"; "401"; "403"; "422"; "500"; "404" ]}.
Proof.
  split; [reflexivity|]. split; [by eexists|].
  apply (computed_response_keys (api_post "/users/{id}/activate" sample_config));
    [reflexivity | by eexists].
Defined.

Lemma computedResponses_success (route : Route) :
  computedResponses route !! successCode route = Some (successResponse route).
Proof.
  unfold computedResponses.
  assert (successCode route <> "401" /\ successCode route <> "403"
          /\ successCode route <> "422" /\ successCode route <> "404"
          /\ successCode route <> "500") as (H401 & H403 & H422 & H404 & H500).
  { destruct (successCode_cases route) as [-> | [-> | ->]]; repeat split; discriminate. }
  destruct (auth route), (bodySchema route), (paramsSchema route);
    repeat (rewrite lookup_insert_ne by congruence);
    apply lookup_insert_eq.
Qed.

Lemma generateResponses_not_overridden (route : Route) (key : string) :
  customResponses route !! key = None ->
  generateResponses route !! key = computedResponses route !! key.
Proof.
  intros Hnone. unfold generateResponses, Object_assign.
  by rewrite lookup_union_r.
Qed.

(** C5. For a route of method delete without a response hint, the success
    response, under key 204, is an object with a description and nothing
    else, so without [content]; with a response hint, the response under
    204 has as content schema the envelope with the fields [success], a
    boolean, and [data], the converted hint if the hint has a [_def] and
    the unconstrained object otherwise.  This is the entry of the final
    map too unless the caller overrides key 204. *)
Theorem delete_success_response (route : Route)
    (Hdelete : method route = "delete") :
  (responseSchema route = None ->
   computedResponses route !! "204"
   = Some (JObj [("description", JStr "Successfully deleted")])) /\
  (forall hint, responseSchema route = Some hint ->
   computedResponses route !! "204"
   = Some (JObj
       [("description", JStr "Successful operation");
        ("content",
         JObj [("application/json",
           JObj [("schema",
             JObj [("type", JStr "object");
                   ("properties",
                    JObj [("success",
                           JObj [("type", JStr "boolean"); ("example", JBool true)]);
                          ("data",
                           match hint with
                           | Def _ _ => JObj (convert (Some hint))
                           | NoDef => JObj [("type", JStr "object")]
                           end)])])])])])) /\
  (customResponses route !! "204" = None ->
   generateResponses route !! "204" = computedResponses route !! "204").
Proof.
  assert (successCode route = "204") as Hcode.
  { unfold successCode. by rewrite Hdelete. }
  pose proof (computedResponses_success route) as Hsucc.
  rewrite Hcode in Hsucc.
  split; [|split]; [| |apply generateResponses_not_overridden];
    rewrite Hsucc; unfold successResponse; rewrite Hdelete; simpl.
  - by intros ->.
  - intros hint ->. simpl. by destruct hint.
Qed.

Lemma delete_success_response_witness :
  generateResponses (api_delete "/users/{id}" (delete_config None)) !! "204"
  = Some (JObj [("description", JStr "Successfully deleted")]).
Proof.
  pose proof (delete_success_response
                (api_delete "/users/{id}" (delete_config None)) eq_refl)
    as (Hnone & _ & Hfinal).
  rewrite (Hfinal eq_refl). exact (Hnone eq_refl).
Defined.

Example delete_with_plain_hint :
  generateResponses (api_delete "/users/{id}" (delete_config (Some NoDef))) !! "204"
  = Some (JObj
      [("description", JStr "Successful operation");
       ("content",
        JObj [("application/json",
          JObj [("schema",
            JObj [("type", JStr "object");
                  ("properties",
                   JObj [("success",
                          JObj [("type", JStr "boolean"); ("example", JBool true)]);
                         ("data", JObj [("type", JStr "object")])])])])])]).
Proof.
  rewrite generateResponses_not_overridden by reflexivity.
  apply (computedResponses_success
           (api_delete "/users/{id}" (delete_config (Some NoDef)))).
Qed.

(** C6. Every key of the caller-supplied overrides maps, in the final
    response map, to the override's value, whatever was computed for that
    key; an override for a key that has no computed entry is present in
    the result all the same. *)
Theorem overrides_take_precedence (route : Route) (key : string)
    (override : json)
    (Hoverride : customResponses route !! key = Some override) :
  generateResponses route !! key = Some override /\
  (computedResponses route !! key = None ->
   key ∈ dom (generateResponses route)).
Proof.
  assert (generateResponses route !! key = Some override) as Hfinal.
  { unfold generateResponses, Object_assign.
    by apply lookup_union_Some_l. }
  split; [done|]. intros _. apply elem_of_dom. by eexists.
Qed.

Lemma overrides_take_precedence_witness :
  computedResponses (api_get "/reports" override_config) !! "422" = None /\
  generateResponses (api_get "/reports" override_config) !! "422"
  = Some (JObj [("description", JStr "Malformed filter")]).
Proof.
  split; [reflexivity|].
  apply (overrides_take_precedence (api_get "/reports" override_config) "422").
  reflexivity.
Defined.

(** ** Summary and description *)

Lemma upper_lower_ascii (c : ascii) :
  upper_ascii (lower_ascii c) = upper_ascii c.
Proof.
  destruct c as [[] [] [] [] [] [] [] []]; reflexivity.
Qed.

Lemma toUpperCase_toLowerCase (s : string) :
  toUpperCase (toLowerCase s) = toUpperCase s.
Proof.
  induction s as [|c s IH]; simpl; [done|].
  by rewrite upper_lower_ascii, IH.
Qed.

(** C4, as stated, fails: a route declared with neither summary nor
    description gets the summary "GET /health" and no description. *)
Lemma description_not_defaulted_summary :
  let config :=
    {| cfg_summary := None; cfg_description := None; cfg_tags := None;
       cfg_auth := None; cfg_body := None; cfg_query := None;
       cfg_params := None; cfg_response := None; cfg_responses := None |} in
  let operation := generateOperation (api_get "/health" config) in
  op_summary operation = "GET /health" /\
  op_description operation = None /\
  op_description operation <> Some "GET /health".
Proof. repeat split; discriminate. Qed.

(** C4, amended. The operation's summary is "<METHOD> <path>", with the
    method in upper case, when the route declares no summary; the
    operation's description is the declared description, and when none
    is declared it is the declared summary.  For a route with neither,
    the summary is "<METHOD> <path>" and the description is absent. *)
Theorem summary_description_defaults
    (method_ path_ : string) (config : RouteConfig) :
  let operation := generateOperation (createRoute method_ path_ config) in
  (truthy (cfg_summary config) = false ->
   op_summary operation = toUpperCase method_ +:+ " " +:+ path_) /\
  (truthy (cfg_description config) = false ->
   op_description operation = cfg_summary config) /\
  (truthy (cfg_description config) = true ->
   op_description operation = cfg_description config) /\
  (cfg_summary config = None -> cfg_description config = None ->
   op_summary operation = toUpperCase method_ +:+ " " +:+ path_ /\
   op_description operation = None).
Proof.
  simpl. unfold js_or. split; [|split; [|split]].
  - intros ->. by rewrite toUpperCase_toLowerCase.
  - by intros ->.
  - by intros ->.
  - intros -> ->. simpl. by rewrite toUpperCase_toLowerCase.
Qed.

Lemma summary_description_defaults_witness :
  truthy (cfg_summary patch_config) = false /\
  op_summary (generateOperation (createRoute "patch" "/users/{id}" patch_config))
  = "PATCH /users/{id}".
Proof.
  split; [reflexivity|].
  exact (proj1 (summary_description_defaults "patch" "/users/{id}" patch_config)
               eq_refl).
Defined.

Example description_defaults_to_declared_summary :
  op_description (generateOperation (api_get "/health"
    {| cfg_summary := Some "Basic health check"; cfg_description := None;
       cfg_tags := None; cfg_auth := None; cfg_body := None;
       cfg_query := None; cfg_params := None; cfg_response := None;
       cfg_responses := None |}))
  = Some "Basic health check".
Proof. reflexivity. Qed.

(** ** Operation identifiers *)

Lemma substring_all (s t : string) :
  substring 0 (String.length s) (s +:+ t) = s.
Proof.
  induction s as [|c s IH]; simpl.
  - by destruct t.
  - by rewrite IH.
Qed.

Lemma substring_whole (s : string) : substring 0 (String.length s) s = s.
Proof. induction s as [|c s IH]; simpl; [done | by rewrite IH]. Qed.

Lemma length_append (s t : string) :
  String.length (s +:+ t) = (String.length s + String.length t)%nat.
Proof. induction s as [|c s IH]; simpl; [done | by rewrite IH]. Qed.

Lemma slice_from_1 (c : ascii) (rest : string) :
  slice_from 1 (String c rest) = rest.
Proof.
  unfold slice_from, slice.
  set (len := Z.of_nat (String.length (String c rest))).
  assert (len = Z.of_nat (String.length rest) + 1)%Z as Hlen
    by (unfold len; simpl String.length; lia).
  change (1 <? 0)%Z with false. cbv iota.
  destruct (len <? 0)%Z eqn:Hneg; [lia|].
  replace (Z.to_nat (Z.min 1 len)) with 1%nat by lia.
  replace (Z.to_nat (Z.max (Z.min len len - Z.min 1 len) 0))
    with (String.length rest) by lia.
  simpl. apply substring_whole.
Qed.

Lemma slice_inner (c final : ascii) (name : string) :
  slice 1 (-1) (String c (name +:+ String final EmptyString)) = name.
Proof.
  unfold slice.
  set (len := Z.of_nat (String.length (String c (name +:+ String final EmptyString)))).
  assert (len = Z.of_nat (String.length name) + 2)%Z as Hlen
    by (unfold len; simpl String.length; rewrite length_append; simpl; lia).
  change (1 <? 0)%Z with false. change (-1 <? 0)%Z with true. cbv iota.
  replace (Z.to_nat (Z.min 1 len)) with 1%nat by lia.
  replace (Z.to_nat (Z.max (Z.max (len + -1) 0 - Z.min 1 len) 0))
    with (String.length name) by lia.
  simpl. apply substring_all.
Qed.

Lemma slice_inner_tail (c final : ascii) (name : string) :
  slice 2 (-1) (String c (name +:+ String final EmptyString))
  = match name with
    | EmptyString => EmptyString
    | String _ rest => rest
    end.
Proof.
  unfold slice.
  set (len := Z.of_nat (String.length (String c (name +:+ String final EmptyString)))).
  assert (len = Z.of_nat (String.length name) + 2)%Z as Hlen
    by (unfold len; simpl String.length; rewrite length_append; simpl; lia).
  change (2 <? 0)%Z with false. change (-1 <? 0)%Z with true. cbv iota.
  replace (Z.to_nat (Z.min 2 len)) with 2%nat by lia.
  replace (Z.to_nat (Z.max (Z.max (len + -1) 0 - Z.min 2 len) 0))
    with (String.length name - 1)%nat by lia.
  destruct name as [|d rest]; simpl; [done|].
  rewrite Nat.sub_0_r. apply substring_all.
Qed.

Lemma unsnoc_append (name : string) (final : ascii) :
  unsnoc (name +:+ String final EmptyString) = Some (name, final).
Proof.
  induction name as [|c name IH]; simpl; [done | by rewrite IH].
Qed.

Lemma operationId_part_plain (segment : string) :
  startsWith "{" segment = false ->
  operationId_part segment = pascal_segment segment.
Proof.
  intros Hstart. unfold operationId_part, pascal_segment. rewrite Hstart.
  destruct segment as [|c rest]; [done|].
  simpl in Hstart. simpl placeholder_name. rewrite Hstart.
  rewrite slice_from_1. reflexivity.
Qed.

Lemma operationId_part_placeholder (name : string) :
  operationId_part ("{" +:+ name +:+ "}") = pascal_segment ("{" +:+ name +:+ "}").
Proof.
  unfold operationId_part, pascal_segment.
  change ("{" +:+ name +:+ "}") with (String "{" (name +:+ String "}" EmptyString)).
  simpl startsWith. simpl placeholder_name.
  rewrite unsnoc_append. simpl.
  rewrite slice_inner, slice_inner_tail.
  by destruct name.
Qed.

Lemma unsnoc_Some (s init : string) (final : ascii) :
  unsnoc s = Some (init, final) -> s = init +:+ String final EmptyString.
Proof.
  revert init. induction s as [|c s IH]; intros init; simpl; [done|].
  destruct (unsnoc s) as [[init' final']|] eqn:E.
  - intros [= <- <-]. simpl. by rewrite (IH init' eq_refl).
  - intros [= <- <-]. by destruct s as [|d s]; [|simpl in E; destruct (unsnoc s) as [[]|]].
Qed.

Lemma placeholder_name_Some (segment name : string) :
  placeholder_name segment = Some name -> segment = "{" +:+ name +:+ "}".
Proof.
  destruct segment as [|c rest]; simpl; [done|].
  destruct (Ascii.eqb c "{") eqn:Hc; [|done].
  apply Ascii.eqb_eq in Hc. subst c.
  destruct (unsnoc rest) as [[init final]|] eqn:E; [|done].
  destruct (Ascii.eqb final "}") eqn:Hf; [|done].
  apply Ascii.eqb_eq in Hf. subst final.
  intros [= ->]. by rewrite (unsnoc_Some _ _ _ E).
Qed.

Lemma operationId_part_closed (segment : string) :
  negb (startsWith "{" segment)
  || match placeholder_name segment with Some _ => true | None => false end
  = true ->
  operationId_part segment = pascal_segment segment.
Proof.
  intros Hclosed.
  destruct (placeholder_name segment) as [name|] eqn:Hname.
  - apply placeholder_name_Some in Hname. subst segment.
    apply operationId_part_placeholder.
  - rewrite orb_false_r in Hclosed. apply negb_true_iff in Hclosed.
    by apply operationId_part_plain.
Qed.

(** C7. The operation identifier is to be the method in lower case
    followed by the PascalCase transform of the path, each non-empty
    segment capitalized and each placeholder [{name}] turned into [By] and
    the capitalized name.  The code breaks this on a segment that begins
    with an opening brace without being a complete placeholder: it takes
    the segment for a placeholder and drops its last character, so GET
    /files/{id}.json yields getFilesById}.jso. *)
Lemma operationId_open_placeholder :
  generateOperationId "GET" "/files/{id}.json" = "getFilesById}.jso" /\
  operationId_spec "GET" "/files/{id}.json" = "getFiles{id}.json" /\
  generateOperationId "GET" "/files/{id}.json"
  <> operationId_spec "GET" "/files/{id}.json".
Proof. repeat split; discriminate. Qed.

(** On ASCII text, and when each segment that begins with an opening
    brace is a complete placeholder [{name}], the code does what the
    specification says; method GET with path /users/{id}/role yields
    getUsersByIdRole. *)
Lemma operationId_pascal_case (method_ path_ : string)
    (Hmethod : is_ascii method_ = true)
    (Hpath : is_ascii path_ = true)
    (Hclosed : placeholders_closed path_ = true) :
  generateOperationId method_ path_ = operationId_spec method_ path_ /\
  generateOperationId "GET" "/users/{id}/role" = "getUsersByIdRole".
Proof.
  clear Hmethod Hpath. split; [|reflexivity].
  unfold generateOperationId, operationId_spec, pascalCase.
  fold (segments path_). do 2 f_equal.
  unfold placeholders_closed in Hclosed.
  induction (segments path_) as [|segment rest IH]; [done|].
  simpl in Hclosed. apply andb_true_iff in Hclosed as [Hhead Htail].
  simpl. by rewrite operationId_part_closed, IH.
Qed.

Lemma operationId_pascal_case_witness :
  placeholders_closed "/users/{id}/activate" = true /\
  generateOperationId "post" "/users/{id}/activate"
  = operationId_spec "post" "/users/{id}/activate".
Proof.
  split; [reflexivity|].
  exact (proj1 (operationId_pascal_case "post" "/users/{id}/activate"
                  eq_refl eq_refl eq_refl)).
Defined.

Example operationId_unclosed_brace :
  generateOperationId "GET" "/users/{id" = "getUsersByI".
Proof. reflexivity. Qed.

(** ** Parameters *)

Lemma get_spread_None (k : string) (o extra : obj) :
  get_field k extra = None -> get_field k (spread o extra) = get_field k o.
Proof.
  unfold spread. revert o.
  induction extra as [|[k' v'] extra IH]; intros o Hnone; simpl; [done|].
  simpl in Hnone. destruct (String.eqb k' k) eqn:E; [done|].
  rewrite IH by done. apply get_set_ne. by apply String.eqb_neq.
Qed.

(** Case analysis on every test of a loop body. *)
Ltac case_tests :=
  repeat match goal with
         | |- context [if ?b then _ else _] => destruct b
         | |- context [match ?o with Some _ => _ | None => _ end] => destruct o
         end.

Lemma convertString_properties (checks : list check) :
  get_field "properties" (convertString checks) = None.
Proof.
  unfold convertString.
  assert (forall schema,
    get_field "properties" (fold_left convertString_step checks schema)
    = get_field "properties" schema) as Hloop; [|by rewrite Hloop].
  induction checks as [|c checks IH]; intros schema; simpl; [done|].
  rewrite IH. unfold convertString_step.
  case_tests; by rewrite ?get_set_ne by discriminate.
Qed.

Lemma getNumberConstraints_properties (checks : list check) :
  get_field "properties" (getNumberConstraints checks) = None.
Proof.
  unfold getNumberConstraints.
  assert (forall constraints,
    get_field "properties" (fold_left getNumberConstraints_step checks constraints)
    = get_field "properties" constraints) as Hloop; [|by rewrite Hloop].
  induction checks as [|c checks IH]; intros constraints; simpl; [done|].
  rewrite IH. unfold getNumberConstraints_step.
  case_tests; by rewrite ?get_set_ne by discriminate.
Qed.

Lemma convertObject_properties (cv : zod -> obj) shape unknownKeys :
  exists properties,
    get_field "properties" (convertObject cv shape unknownKeys)
    = Some (JObj properties).
Proof.
  unfold convertObject.
  destruct (fold_left _ shape ([], [])) as [properties required].
  exists properties.
  destruct (String.eqb unknownKeys "passthrough");
    [rewrite get_set_ne by discriminate|
     destruct (String.eqb unknownKeys "strict");
       [rewrite get_set_ne by discriminate|]];
    by destruct required.
Qed.

Lemma convertNode_properties :
  forall z : zod, object_or_absent (get_field "properties" (convertNode z)).
Proof.
  fix IH 1. intros [|text d]; [exact I|].
  simpl. rewrite get_add_description by discriminate.
  destruct d as [checks|checks|checks| | |values|values|value|shape unknownKeys
                |type minLength maxLength|valueType|innerType|innerType
                |innerType defaultValue|options|lhs rhs|schema| | | | |typeName];
    try exact I.
  - by rewrite convertString_properties.
  - unfold convertNumber.
    by rewrite get_spread_None by apply getNumberConstraints_properties.
  - by rewrite get_spread_None by apply getNumberConstraints_properties.
  - by destruct (convertObject_properties convertNode shape unknownKeys) as [? ->].
  - by destruct minLength, maxLength.
  - apply IH.
  - rewrite get_set_ne by discriminate. apply IH.
  - destruct defaultValue; [rewrite get_set_ne by discriminate|]; apply IH.
  - apply IH.
Qed.

(** A schema contributes one parameter per entry of [properties]. *)
Lemma generateParameters_length (zodSchema : zod) (location : string) :
  length (generateParameters zodSchema location)
  = match get_field "properties" (convert (Some zodSchema)) with
    | Some (JObj properties) => length properties
    | _ => 0%nat
    end.
Proof.
  unfold generateParameters.
  destruct (get_field "properties" (convert (Some zodSchema))) as [[]|];
    try done.
  apply length_map.
Qed.

(** C9. A params or query schema whose conversion has no [properties]
    field contributes no parameter; and when the parameter list of a route
    is empty the operation has no [parameters] key. *)
Theorem no_properties_no_parameters :
  (forall (zodSchema : zod) (location : string),
     get_field "properties" (convert (Some zodSchema)) = None ->
     generateParameters zodSchema location = []) /\
  (forall route : Route,
     routeParameters route = [] ->
     op_parameters (generateOperation route) = None).
Proof.
  split.
  - intros zodSchema location Hnone. unfold generateParameters.
    by rewrite Hnone.
  - intros route Hempty. simpl. by rewrite Hempty.
Qed.

Lemma no_properties_no_parameters_witness :
  generateParameters (Def None (ZodString [])) "query" = [] /\
  op_parameters (generateOperation (api_get "/search" union_query_config)) = None.
Proof.
  split.
  - apply (proj1 no_properties_no_parameters). reflexivity.
  - apply (proj2 no_properties_no_parameters). reflexivity.
Defined.

(** The [parameters] key is set exactly when the list is not empty, and
    then holds the whole list. *)
Lemma op_parameters_spec (route : Route) :
  op_parameters (generateOperation route)
  = match routeParameters route with
    | [] => None
    | _ :: _ => Some (routeParameters route)
    end.
Proof. reflexivity. Qed.

(** An object schema without properties has a [properties] field, and
    contributes no parameter either. *)
Example empty_object_no_parameters :
  get_field "properties" (convert (Some (Def None (ZodObject [] "strip"))))
  = Some (JObj []) /\
  generateParameters (Def None (ZodObject [] "strip")) "path" = [].
Proof. split; reflexivity. Qed.

Example path_parameters_always_required :
  generateParameters
    (Def None (ZodObject
       [("id", Def None (ZodOptional (Def (Some "User id") (ZodString []))))]
       "strip")) "path"
  = [ {| p_name := "id"; p_in := "path"; p_required := true;
         p_schema := JObj [("type", JStr "string"); ("description", JStr "User id")];
         p_description := Some "User id" |} ].
Proof. reflexivity. Qed.

(** ** Paths *)

(** A path that begins with a slash is none of the inherited names. *)
Lemma slash_not_inherited (p : string) :
  startsWith "/" p = true -> inherited p = false.
Proof.
  intros Hslash. destruct (inherited p) eqn:Hinherited; [|done].
  unfold inherited in Hinherited.
  apply existsb_exists in Hinherited as (name & Hin & Heq).
  apply String.eqb_eq in Heq. subst name. simpl in Hin.
  repeat (destruct Hin as [<-|Hin]; [discriminate Hslash|]). done.
Qed.

Lemma slash_paths_not_inherited (routes : list Route) :
  Forall slash_path routes ->
  Forall (fun route => inherited (path route) = false) routes.
Proof.
  intros Hslash. eapply Forall_impl; [exact Hslash|].
  intros route. apply slash_not_inherited.
Qed.

(** Off the inherited names, a turn of the loop files the operation
    under the route's path and method. *)
Lemma generateDocs_step_plain paths (route : Route) :
  inherited (path route) = false ->
  generateDocs_step paths route
  = <[path route :=
        <[method route := generateOperation route]>
          (default ∅ (paths !! path route))]> paths.
Proof.
  intros Hplain. unfold generateDocs_step. rewrite Hplain.
  destruct (paths !! path route) as [operations|] eqn:Hpath.
  - by rewrite Hpath.
  - rewrite lookup_insert_eq. by rewrite insert_insert_eq.
Qed.

Lemma generateDocs_step_lookup paths (route : Route) (p m : string) :
  inherited (path route) = false ->
  lookup_operation (generateDocs_step paths route) p m
  = if declared_at p m route then Some (generateOperation route)
    else lookup_operation paths p m.
Proof.
  intros Hplain. rewrite generateDocs_step_plain by done.
  unfold lookup_operation, declared_at.
  destruct (String.eqb_spec (path route) p) as [<-|Hpath]; simpl.
  - rewrite lookup_insert_eq. simpl.
    destruct (String.eqb_spec (method route) m) as [<-|Hmethod].
    + by rewrite lookup_insert_eq.
    + rewrite lookup_insert_ne by done.
      by destruct (paths !! path route) as [operations|].
  - by rewrite lookup_insert_ne.
Qed.

Lemma generateDocs_loop_lookup (routes : list Route) paths (p m : string) :
  Forall (fun route => inherited (path route) = false) routes ->
  lookup_operation (fold_left generateDocs_step routes paths) p m
  = match latest_route p m routes with
    | Some route => Some (generateOperation route)
    | None => lookup_operation paths p m
    end.
Proof.
  intros Hplain. revert paths. unfold latest_route.
  induction Hplain as [|route routes Hroute _ IH]; intros paths; simpl; [done|].
  rewrite IH, generateDocs_step_lookup by done.
  destruct (declared_at p m route); [|done].
  rewrite last_cons. by destruct (last _).
Qed.

(** C10, as stated, fails: a path that names a property every object
    inherits, such as [constructor], is never an own key of the mapping,
    so two routes declared at it leave the mapping empty and the pair
    unbound. *)
Lemma inherited_path_not_filed :
  let first := api_get "constructor" sample_config in
  let second := api_get "constructor" override_config in
  generateDocs [first; second] = ∅ /\
  lookup_operation (generateDocs [first; second]) "constructor" "get" = None /\
  lookup_operation (generateDocs [first; second]) "constructor" "get"
  <> Some (generateOperation second).
Proof. repeat split; discriminate. Qed.

(** C10, amended. In the paths mapping of a route list whose paths
    begin with a slash, a path and (lower-case) method are bound to the
    operation of the latest route of the list declared at that path with
    that method, and to nothing when there is none: a later route
    replaces an earlier one at the same pair and leaves every other pair
    as it was. *)
Theorem generateDocs_latest_wins (routes : list Route) (p m : string)
    (Hslash : Forall slash_path routes) :
  lookup_operation (generateDocs routes) p m
  = generateOperation <$> latest_route p m routes.
Proof.
  unfold generateDocs.
  rewrite generateDocs_loop_lookup by by apply slash_paths_not_inherited.
  by destruct (latest_route p m routes).
Qed.

Lemma generateDocs_latest_wins_witness :
  Forall slash_path
    [api_get "/users" sample_config; api_get "/users" override_config;
     api_post "/users" sample_config] /\
  lookup_operation
    (generateDocs [api_get "/users" sample_config;
                   api_get "/users" override_config;
                   api_post "/users" sample_config]) "/users" "get"
  = Some (generateOperation (api_get "/users" override_config)).
Proof.
  assert (Forall slash_path
            [api_get "/users" sample_config; api_get "/users" override_config;
             api_post "/users" sample_config]) as Hslash
    by (repeat constructor).
  split; [exact Hslash|].
  rewrite (generateDocs_latest_wins _ "/users" "get" Hslash). reflexivity.
Defined.

(** The same, around one route of the list. *)
Lemma generateDocs_replaces (before after : list Route) (route : Route) :
  Forall slash_path (before ++ route :: after) ->
  Forall (fun later => declared_at (path route) (method route) later = false) after ->
  lookup_operation (generateDocs (before ++ route :: after))
    (path route) (method route)
  = Some (generateOperation route).
Proof.
  intros Hslash Hafter. unfold generateDocs.
  rewrite generateDocs_loop_lookup by by apply slash_paths_not_inherited.
  unfold latest_route. rewrite List.filter_app. simpl.
  assert (declared_at (path route) (method route) route = true) as ->.
  { unfold declared_at. by rewrite !String.eqb_refl. }
  assert (List.filter (declared_at (path route) (method route)) after = []) as ->.
  { clear Hslash. induction Hafter as [|later after Hlater _ IH]; simpl; [done|].
    by rewrite Hlater. }
  by rewrite last_snoc.
Qed.

(** A route leaves the operations of the other pairs untouched. *)
Lemma generateDocs_other_pairs (routes : list Route) (route : Route) (p m : string) :
  slash_path route ->
  declared_at p m route = false ->
  lookup_operation (generateDocs (routes ++ [route])) p m
  = lookup_operation (generateDocs routes) p m.
Proof.
  intros Hslash Hother. unfold generateDocs.
  rewrite fold_left_app. simpl.
  rewrite generateDocs_step_lookup by by apply slash_not_inherited.
  by rewrite Hother.
Qed.

Example generateDocs_duplicate_pair :
  let first := api_get "/users" sample_config in
  let second := api_get "/users" override_config in
  let third := api_post "/users" sample_config in
  lookup_operation (generateDocs [first; second; third]) "/users" "get"
  = Some (generateOperation second) /\
  lookup_operation (generateDocs [first; second; third]) "/users" "post"
  = Some (generateOperation third) /\
  lookup_operation (generateDocs [first; second; third]) "/users" "put" = None.
Proof.
  intros first second third. unfold generateDocs.
  rewrite !generateDocs_loop_lookup by (repeat constructor). repeat split.
Qed.

(** * Further properties *)

(** ** Loops that write fields *)

(** A loop whose body either writes [key] or leaves it alone ends with
    the last value written. *)
Lemma loop_last_write {A : Type} (step : obj -> A -> obj) (key : string)
    (written : A -> option json) :
  (forall o c, get_field key (step o c)
               = match written c with
                 | Some v => Some v
                 | None => get_field key o
                 end) ->
  forall l o,
    get_field key (fold_left step l o)
    = match last (omap written l) with
      | Some v => Some v
      | None => get_field key o
      end.
Proof.
  intros Hstep l. induction l as [|c l IH]; intros o; simpl; [done|].
  rewrite IH, Hstep.
  destruct (written c) as [v|]; simpl; [|done].
  rewrite last_cons. unfold omap. by destruct (last _).
Qed.

(** A loop whose body never writes [key] leaves it as it was. *)
Lemma loop_no_write {A : Type} (step : obj -> A -> obj) (key : string) :
  (forall o c, get_field key (step o c) = get_field key o) ->
  forall l o, get_field key (fold_left step l o) = get_field key o.
Proof.
  intros Hstep l. induction l as [|c l IH]; intros o; simpl; [done|].
  by rewrite IH, Hstep.
Qed.

(** Case analysis on the kind of a check, one string test at a time. *)
Ltac case_kind :=
  repeat match goal with
         | |- context [String.eqb ?k ?s] =>
             is_var k; destruct (String.eqb_spec k s); [subst k; simpl|]
         end.

(** Reading a field through the assignments made after it. *)
Ltac get_set :=
  repeat (rewrite get_set_eq || rewrite get_set_ne by discriminate).

Lemma convertString_step_minLength (o : obj) (c : check) :
  get_field "minLength" (convertString_step o c)
  = match written_minLength c with
    | Some v => Some v
    | None => get_field "minLength" o
    end.
Proof.
  destruct c as [k v inc re ver].
  unfold convertString_step, written_minLength. simpl.
  case_kind; simpl; get_set; done.
Qed.

Lemma convertString_step_maxLength (o : obj) (c : check) :
  get_field "maxLength" (convertString_step o c)
  = match written_maxLength c with
    | Some v => Some v
    | None => get_field "maxLength" o
    end.
Proof.
  destruct c as [k v inc re ver].
  unfold convertString_step, written_maxLength. simpl.
  case_kind; simpl; get_set; done.
Qed.

Lemma convertString_step_pattern (o : obj) (c : check) :
  get_field "pattern" (convertString_step o c)
  = match written_pattern c with
    | Some v => Some v
    | None => get_field "pattern" o
    end.
Proof.
  destruct c as [k v inc re ver].
  unfold convertString_step, written_pattern. simpl.
  case_kind; simpl; get_set; done.
Qed.

Lemma convertString_step_format (o : obj) (c : check) :
  get_field "format" (convertString_step o c)
  = match written_format c with
    | Some v => Some v
    | None => get_field "format" o
    end.
Proof.
  destruct c as [k v inc re ver].
  unfold convertString_step, written_format. simpl.
  case_kind; simpl; get_set; try done.
  destruct ver as [ver|]; [|done].
  destruct (String.eqb_spec ver "v4") as [->|H4]; [done|].
  rewrite bool_decide_eq_false_2 by congruence.
  destruct (String.eqb_spec ver "v6") as [->|H6]; [done|].
  by rewrite bool_decide_eq_false_2 by congruence.
Qed.

Lemma convertString_step_type (o : obj) (c : check) :
  get_field "type" (convertString_step o c) = get_field "type" o.
Proof.
  destruct c as [k v inc re ver]. unfold convertString_step. simpl.
  case_kind; simpl; get_set; done.
Qed.

(** X1. In the conversion of a string node the last write wins: the type
    stays [string]; [minLength] is the value of the last [min] or
    [length] check and [maxLength] that of the last [max] or [length]
    check; a key that no check writes is not set. *)
Theorem convertString_length_bounds (description : option string)
    (checks : list check) :
  let schema := convert (Some (Def description (ZodString checks))) in
  get_field "type" schema = Some (JStr "string") /\
  get_field "minLength" schema = last (omap written_minLength checks) /\
  get_field "maxLength" schema = last (omap written_maxLength checks).
Proof.
  simpl. rewrite !get_add_description by discriminate. unfold convertString.
  rewrite (loop_no_write _ _ convertString_step_type).
  rewrite (loop_last_write _ _ _ convertString_step_minLength).
  rewrite (loop_last_write _ _ _ convertString_step_maxLength).
  repeat split.
  - by destruct (last (omap written_minLength checks)).
  - by destruct (last (omap written_maxLength checks)).
Qed.

(** X2. The [format] of a converted string node is the one named by the
    last format check ([email], [url] as [uri], [uuid], [cuid] and
    [cuid2] as [cuid], [ulid], [datetime] as [date-time], [date],
    [time], [ip] by its version), and its [pattern] is the source of the
    last [regex] check; without such a check the key is not set. *)
Theorem convertString_format_pattern (description : option string)
    (checks : list check) :
  let schema := convert (Some (Def description (ZodString checks))) in
  get_field "format" schema = last (omap written_format checks) /\
  get_field "pattern" schema = last (omap written_pattern checks).
Proof.
  simpl. rewrite !get_add_description by discriminate. unfold convertString.
  rewrite (loop_last_write _ _ _ convertString_step_format).
  rewrite (loop_last_write _ _ _ convertString_step_pattern).
  split.
  - by destruct (last (omap written_format checks)).
  - by destruct (last (omap written_pattern checks)).
Qed.

Example string_length_then_min :
  convert (Some (Def None (ZodString
    [Check "length" (JNum 10) None "" None;
     Check "uuid" JNull None "" None;
     Check "min" (JNum 2) None "" None;
     Check "ip" JNull None "" (Some "v6")])))
  = [("type", JStr "string"); ("minLength", JNum 2); ("maxLength", JNum 10);
     ("format", JStr "ipv6")].
Proof. reflexivity. Qed.

Lemma convertString_step_unknown (o : obj) (c : check) :
  kind_in string_kinds c = false -> convertString_step o c = o.
Proof.
  destruct c as [k v inc re ver]. unfold kind_in, convertString_step. simpl kind.
  intros Hkind.
  case_kind; try (vm_compute in Hkind; discriminate Hkind); done.
Qed.

Lemma getNumberConstraints_step_unknown (o : obj) (c : check) :
  kind_in number_kinds c = false -> getNumberConstraints_step o c = o.
Proof.
  destruct c as [k v inc re ver].
  unfold kind_in, getNumberConstraints_step. simpl kind.
  intros Hkind.
  case_kind; try (vm_compute in Hkind; discriminate Hkind); done.
Qed.

Lemma loop_skip_unchanged {A : Type} (step : obj -> A -> obj) (keep : A -> bool) :
  (forall o c, keep c = false -> step o c = o) ->
  forall l o, fold_left step (List.filter keep l) o = fold_left step l o.
Proof.
  intros Hskip l. induction l as [|c l IH]; intros o; simpl; [done|].
  destruct (keep c) eqn:Hkeep; simpl; [apply IH|].
  rewrite (Hskip o c Hkeep). apply IH.
Qed.

(** X3. Checks of a kind for which the loops have no case leave no trace:
    a string, number or integer node converts as the same node without
    those checks. *)
Theorem unknown_checks_ignored (description : option string)
    (checks : list check) :
  convert (Some (Def description (ZodString checks)))
  = convert (Some (Def description
                     (ZodString (List.filter (kind_in string_kinds) checks)))) /\
  convert (Some (Def description (ZodNumber checks)))
  = convert (Some (Def description
                     (ZodNumber (List.filter (kind_in number_kinds) checks)))) /\
  convert (Some (Def description (ZodInt checks)))
  = convert (Some (Def description
                     (ZodInt (List.filter (kind_in number_kinds) checks)))).
Proof.
  simpl. unfold convertString, convertNumber, getNumberConstraints.
  rewrite (loop_skip_unchanged _ _ convertString_step_unknown).
  by rewrite (loop_skip_unchanged _ _ getNumberConstraints_step_unknown).
Qed.

(** ** Keys of an object *)

Lemma keys_set_field (k : string) (v : json) (o : obj) :
  map fst (set_field k v o)
  = if bool_decide (k ∈ map fst o) then map fst o else map fst o ++ [k].
Proof.
  induction o as [|[k' v'] o IH]; simpl; [done|].
  destruct (String.eqb_spec k' k) as [->|Hne]; simpl.
  - rewrite bool_decide_eq_true_2; [done | apply elem_of_cons; by left].
  - rewrite IH. destruct (bool_decide (k ∈ map fst o)) eqn:Hin.
    + apply bool_decide_eq_true in Hin.
      rewrite bool_decide_eq_true_2; [done | apply elem_of_cons; by right].
    + apply bool_decide_eq_false in Hin.
      rewrite bool_decide_eq_false_2; [done|].
      rewrite elem_of_cons. intros [?|?]; [congruence | done].
Qed.

Lemma NoDup_set_field (k : string) (v : json) (o : obj) :
  NoDup (map fst o) -> NoDup (map fst (set_field k v o)).
Proof.
  intros Hnodup. rewrite keys_set_field. case_bool_decide; [done|].
  apply NoDup_app. split; [done|]. split; [|apply NoDup_singleton].
  intros x Hx Hk. apply list_elem_of_singleton in Hk. by subst.
Qed.

Lemma get_field_None (k : string) (o : obj) :
  get_field k o = None <-> k ∉ map fst o.
Proof.
  induction o as [|[k' v'] o IH]; simpl.
  - split; [intros _; apply not_elem_of_nil | done].
  - rewrite not_elem_of_cons.
    destruct (String.eqb_spec k' k) as [->|Hne]; [naive_solver|].
    rewrite IH. naive_solver.
Qed.

(** Spreading an object with distinct keys: its fields win, the others
    stay. *)
Lemma get_spread (k : string) (o extra : obj) :
  NoDup (map fst extra) ->
  get_field k (spread o extra)
  = match get_field k extra with
    | Some v => Some v
    | None => get_field k o
    end.
Proof.
  unfold spread. revert o.
  induction extra as [|[k' v'] extra IH]; intros o Hnodup; simpl; [done|].
  apply NoDup_cons in Hnodup as [Hfresh Hnodup]. simpl in Hfresh.
  rewrite IH by done.
  destruct (String.eqb_spec k' k) as [->|Hne].
  - apply get_field_None in Hfresh. rewrite Hfresh. apply get_set_eq.
  - rewrite get_set_ne by done. done.
Qed.

Lemma NoDup_getNumberConstraints (checks : list check) :
  NoDup (map fst (getNumberConstraints checks)).
Proof.
  unfold getNumberConstraints.
  assert (forall o, NoDup (map fst o) ->
    NoDup (map fst (fold_left getNumberConstraints_step checks o))) as Hloop.
  { induction checks as [|c checks IH]; intros o Ho; simpl; [done|].
    apply IH. unfold getNumberConstraints_step.
    case_tests; try done; by apply NoDup_set_field. }
  apply Hloop, NoDup_nil_2.
Qed.

(** ** Number constraints *)

Lemma getNumberConstraints_step_bound (kind_ key : string) (exclusive_ : bool)
    (o : obj) (c : check) :
  (kind_, exclusive_, key) ∈
    [("min", false, "minimum"); ("min", true, "exclusiveMinimum");
     ("max", false, "maximum"); ("max", true, "exclusiveMaximum")] ->
  get_field key (getNumberConstraints_step o c)
  = match written_bound kind_ exclusive_ c with
    | Some v => Some v
    | None => get_field key o
    end.
Proof.
  intros Hcase. destruct c as [k v inc re ver].
  unfold getNumberConstraints_step, written_bound, exclusive. simpl.
  repeat (apply elem_of_cons in Hcase as [[= -> -> ->]|Hcase]);
    [| | | |by apply elem_of_nil in Hcase];
    destruct inc as [[]|]; case_kind; simpl; get_set; done.
Qed.

Lemma getNumberConstraints_step_multipleOf (o : obj) (c : check) :
  get_field "multipleOf" (getNumberConstraints_step o c)
  = match written_multipleOf c with
    | Some v => Some v
    | None => get_field "multipleOf" o
    end.
Proof.
  destruct c as [k v inc re ver].
  unfold getNumberConstraints_step, written_multipleOf. simpl.
  destruct inc as [[]|]; case_kind; simpl; get_set; done.
Qed.

Lemma getNumberConstraints_step_type (o : obj) (c : check) :
  get_field "type" (getNumberConstraints_step o c)
  = match (if is_int_check c then Some (JStr "integer") else None) with
    | Some v => Some v
    | None => get_field "type" o
    end.
Proof.
  destruct c as [k v inc re ver].
  unfold getNumberConstraints_step, is_int_check. simpl.
  destruct inc as [[]|]; case_kind; simpl; get_set; done.
Qed.

Lemma last_omap_constant {A B : Type} (test : A -> bool) (b : B) (l : list A) :
  last (omap (fun a => if test a then Some b else None) l)
  = if existsb test l then Some b else None.
Proof.
  induction l as [|a l IH]; simpl; [done|].
  destruct (test a); simpl; [|apply IH].
  rewrite last_cons. unfold omap in IH. rewrite IH. by destruct (existsb test l).
Qed.

(** X4. A number node converts to type [integer] exactly when one of its
    checks is an [int] check, and to type [number] otherwise; an integer
    node always converts to type [integer]. *)
Theorem number_type (description : option string) (checks : list check) :
  get_field "type" (convert (Some (Def description (ZodNumber checks))))
  = Some (JStr (if existsb is_int_check checks then "integer" else "number")) /\
  get_field "type" (convert (Some (Def description (ZodInt checks))))
  = Some (JStr "integer").
Proof.
  simpl. rewrite !get_add_description by discriminate. unfold convertNumber.
  rewrite !get_spread by apply NoDup_getNumberConstraints.
  unfold getNumberConstraints.
  rewrite (loop_last_write _ _ _ getNumberConstraints_step_type).
  rewrite last_omap_constant. simpl.
  by destruct (existsb is_int_check checks).
Qed.

(** X5. In the conversion of a number or integer node, [minimum] is the
    value of the last [min] check that is not marked exclusive and
    [exclusiveMinimum] that of the last [min] check marked exclusive, each
    whatever the other holds; likewise for [max]; [multipleOf] is the
    value of the last [multipleOf] check. *)
Theorem number_bounds (description : option string) (checks : list check)
    (integer : bool) :
  let schema :=
    convert (Some (Def description
                     (if integer then ZodInt checks else ZodNumber checks))) in
  get_field "minimum" schema = last (omap (written_bound "min" false) checks) /\
  get_field "exclusiveMinimum" schema
  = last (omap (written_bound "min" true) checks) /\
  get_field "maximum" schema = last (omap (written_bound "max" false) checks) /\
  get_field "exclusiveMaximum" schema
  = last (omap (written_bound "max" true) checks) /\
  get_field "multipleOf" schema = last (omap written_multipleOf checks).
Proof.
  assert (forall key written,
    (forall o c, get_field key (getNumberConstraints_step o c)
                 = match written c with
                   | Some v => Some v
                   | None => get_field key o
                   end) ->
    key <> "type" -> key <> "description" ->
    get_field key
      (convert (Some (Def description
                        (if integer then ZodInt checks else ZodNumber checks))))
    = last (omap written checks)) as Hkey.
  { intros key written Hstep Htype Hdescription.
    assert (forall base : string,
      get_field key (spread [("type", JStr base)] (getNumberConstraints checks))
      = last (omap written checks)) as Hspread.
    { intros base. rewrite get_spread by apply NoDup_getNumberConstraints.
      unfold getNumberConstraints.
      rewrite (loop_last_write _ _ _ Hstep).
      assert (get_field key [("type", JStr base)] = None) as ->.
      { apply get_field_None. simpl. rewrite list_elem_of_singleton. congruence. }
      change (get_field key []) with (@None json).
      by destruct (last (omap written checks)). }
    destruct integer; simpl; rewrite get_add_description by done;
      apply Hspread. }
  intros schema. unfold schema.
  repeat split; apply Hkey; try discriminate;
    try (intros o c; apply getNumberConstraints_step_bound;
         rewrite !elem_of_cons; tauto).
  apply getNumberConstraints_step_multipleOf.
Qed.

Example number_both_bounds :
  convert (Some (Def None (ZodNumber
    [Check "min" (JNum 1) (Some true) "" None;
     Check "min" (JNum 5) (Some false) "" None;
     Check "int" JNull None "" None])))
  = [("type", JStr "integer"); ("minimum", JNum 1);
     ("exclusiveMinimum", JNum 5)].
Proof. reflexivity. Qed.

(** ** Object schemas *)

Lemma set_field_fresh (k : string) (v : json) (o : obj) :
  k ∉ map fst o -> set_field k v o = o ++ [(k, v)].
Proof.
  induction o as [|[k' v'] o IH]; simpl; [done|].
  rewrite not_elem_of_cons. intros [Hne Hfresh].
  destruct (String.eqb_spec k' k) as [->|_]; [done|].
  by rewrite IH.
Qed.

(** With distinct keys, none of them [__proto__], the loop of
    [convertObject] lists the properties in the order of the shape. *)
Lemma convertObject_loop_properties (cv : zod -> obj) shape properties required :
  NoDup (map fst properties ++ map fst shape) ->
  "__proto__" ∉ map fst shape ->
  fst (fold_left (convertObject_step cv) shape (properties, required))
  = properties ++ map (fun entry => (fst entry, JObj (cv (snd entry)))) shape.
Proof.
  revert properties required.
  induction shape as [|[key value] shape IH];
    intros properties required Hnodup Hproto.
  - simpl. by rewrite app_nil_r.
  - simpl fold_left. simpl in Hnodup, Hproto.
    apply not_elem_of_cons in Hproto as [Hkey_proto Hproto].
    apply NoDup_app in Hnodup as (Hprops & Hdisjoint & Hshape).
    apply NoDup_cons in Hshape as [Hkey Hshape].
    assert (key ∉ map fst properties) as Hfresh.
    { intros Hin. apply (Hdisjoint key Hin), elem_of_cons. by left. }
    assert (String.eqb key "__proto__" = false) as ->.
    { apply String.eqb_neq. congruence. }
    rewrite IH; [| |done].
    + rewrite set_field_fresh by done. by rewrite <- app_assoc.
    + rewrite set_field_fresh by done. rewrite map_app. simpl.
      apply NoDup_app. split; [|split; [|done]].
      * apply NoDup_app. split; [done|]. split; [|apply NoDup_singleton].
        intros x Hx Hk. apply list_elem_of_singleton in Hk. by subst.
      * intros x Hx Hin. apply elem_of_app in Hx as [Hx|Hx].
        -- apply (Hdisjoint x Hx), elem_of_cons. by right.
        -- apply list_elem_of_singleton in Hx. by subst.
Qed.

Lemma convertObject_fields (cv : zod -> obj) shape unknownKeys (k : string) :
  k <> "required" -> k <> "additionalProperties" ->
  get_field k (convertObject cv shape unknownKeys)
  = get_field k
      [("type", JStr "object");
       ("properties",
        JObj (fst (fold_left (convertObject_step cv) shape ([], []))))].
Proof.
  intros Hrequired Hadditional. unfold convertObject.
  destruct (fold_left _ shape ([], [])) as [properties required].
  destruct (String.eqb unknownKeys "passthrough");
    [rewrite get_set_ne by done|
     destruct (String.eqb unknownKeys "strict");
       [rewrite get_set_ne by done|]];
    (destruct required; [|rewrite get_set_ne by done]); done.
Qed.

Lemma convertObject_additionalProperties (cv : zod -> obj) shape unknownKeys :
  get_field "additionalProperties" (convertObject cv shape unknownKeys)
  = if String.eqb unknownKeys "passthrough" then Some (JBool true)
    else if String.eqb unknownKeys "strict" then Some (JBool false)
    else None.
Proof.
  unfold convertObject.
  destruct (fold_left _ shape ([], [])) as [properties required].
  destruct (String.eqb unknownKeys "passthrough"); [apply get_set_eq|].
  destruct (String.eqb unknownKeys "strict"); [apply get_set_eq|].
  by destruct required.
Qed.

(** X6. For an object node whose shape has distinct keys, none of them
    [__proto__], the converted node has type [object] and its
    [properties] hold, in the order of the shape, one entry per key with
    the conversion of the key's node; [additionalProperties] is [true]
    under the policy [passthrough], [false] under [strict] and not set
    under any other policy. *)
Theorem convert_object_properties (description : option string)
    (shape : list (string * zod)) (unknownKeys : string)
    (Hkeys : NoDup (map fst shape))
    (Hproto : "__proto__" ∉ map fst shape) :
  let schema := convert (Some (Def description (ZodObject shape unknownKeys))) in
  get_field "type" schema = Some (JStr "object") /\
  get_field "properties" schema
  = Some (JObj (map (fun entry => (fst entry, JObj (convert (Some (snd entry)))))
                    shape)) /\
  get_field "additionalProperties" schema
  = (if decide (unknownKeys = "passthrough") then Some (JBool true)
     else if decide (unknownKeys = "strict") then Some (JBool false)
     else None).
Proof.
  simpl. rewrite !get_add_description by discriminate.
  rewrite !convertObject_fields by discriminate.
  rewrite convertObject_additionalProperties.
  rewrite convertObject_loop_properties by done.
  split; [done|]. split; [done|].
  destruct (String.eqb_spec unknownKeys "passthrough");
    destruct (String.eqb_spec unknownKeys "strict");
    repeat case_decide; congruence.
Qed.

Lemma convert_object_properties_witness :
  NoDup (map fst
    [("email", Def None (ZodString [Check "email" JNull None "" None]));
     ("age", Def None (ZodOptional (Def None (ZodInt []))))]) /\
  ("__proto__" ∉ map fst
    [("email", Def None (ZodString [Check "email" JNull None "" None]));
     ("age", Def None (ZodOptional (Def None (ZodInt []))))]) /\
  get_field "properties"
    (convert (Some (Def None (ZodObject
       [("email", Def None (ZodString [Check "email" JNull None "" None]));
        ("age", Def None (ZodOptional (Def None (ZodInt []))))] "strict"))))
  = Some (JObj [("email", JObj [("type", JStr "string"); ("format", JStr "email")]);
                ("age", JObj [("type", JStr "integer")])]).
Proof.
  assert (NoDup (map fst
    [("email", Def None (ZodString [Check "email" JNull None "" None]));
     ("age", Def None (ZodOptional (Def None (ZodInt []))))])) as Hkeys.
  { refine (bool_decide_unpack _ _). vm_compute. exact I. }
  assert ("__proto__" ∉ map fst
    [("email", Def None (ZodString [Check "email" JNull None "" None]));
     ("age", Def None (ZodOptional (Def None (ZodInt []))))]) as Hproto.
  { refine (bool_decide_unpack _ _). vm_compute. exact I. }
  split; [exact Hkeys|]. split; [exact Hproto|].
  exact (proj1 (proj2 (convert_object_properties None _ "strict" Hkeys Hproto))).
Defined.

(** The own key [__proto__] of a shape leaves no entry in [properties],
    while it is listed in [required]. *)
Example proto_key_not_a_property :
  convert (Some (Def None (ZodObject
     [("__proto__", Def None (ZodString [])); ("a", Def None ZodBoolean)] "strip")))
  = [("type", JStr "object");
     ("properties", JObj [("a", JObj [("type", JStr "boolean")])]);
     ("required", JArr [JStr "__proto__"; JStr "a"])].
Proof. reflexivity. Qed.

(** ** The [required] list names properties *)

Lemma elem_of_keys_set_field (k k' : string) (v : json) (o : obj) :
  k ∈ map fst (set_field k' v o) <-> k = k' \/ k ∈ map fst o.
Proof.
  rewrite keys_set_field. case_bool_decide as Hin.
  - split; [by right | intros [->|?]; done].
  - rewrite elem_of_app, list_elem_of_singleton. tauto.
Qed.

Lemma convertObject_loop_keys (cv : zod -> obj) shape properties required k :
  k <> "__proto__" ->
  k ∈ map fst properties \/ k ∈ map fst shape ->
  k ∈ map fst (fst (fold_left (convertObject_step cv) shape
                      (properties, required))).
Proof.
  intros Hproto. revert properties required.
  induction shape as [|[key value] shape IH]; intros properties required Hin.
  - simpl. destruct Hin as [?|Hin]; [done | by apply elem_of_nil in Hin].
  - simpl fold_left. apply IH.
    simpl in Hin. rewrite elem_of_cons in Hin.
    destruct (String.eqb_spec key "__proto__") as [->|Hkey].
    + destruct Hin as [?|[?|?]]; [by left | congruence | by right].
    + rewrite elem_of_keys_set_field. tauto.
Qed.

Lemma required_names_keys (shape : list (string * zod)) (name : string) :
  name ∈ required_names shape -> name ∈ map fst shape.
Proof.
  intros Hin. apply required_names_spec in Hin as (node & Hin & _).
  apply list_elem_of_fmap. by exists (name, node).
Qed.

Lemma convertObject_required_within (cv : zod -> obj) shape unknownKeys :
  required_within_properties (convertObject cv shape unknownKeys).
Proof.
  unfold required_within_properties.
  rewrite convertObject_required.
  rewrite convertObject_fields by discriminate. simpl get_field.
  destruct (required_names shape) as [|name names] eqn:Hnames; [done|].
  split; [done|]. eexists. split; [done|].
  rewrite <- Hnames. apply Forall_forall. intros item Hitem.
  apply list_elem_of_fmap in Hitem as (n & -> & Hn).
  exists n. split; [done|]. intros Hproto.
  apply not_eq_None_Some. rewrite get_field_None. intros Hnot. apply Hnot.
  apply convertObject_loop_keys; [done|]. right. by apply required_names_keys.
Qed.

Lemma convertString_required (checks : list check) :
  get_field "required" (convertString checks) = None.
Proof.
  unfold convertString. rewrite loop_no_write; [done|].
  intros o [k v inc re ver]. unfold convertString_step. simpl.
  case_kind; simpl; get_set; done.
Qed.

Lemma getNumberConstraints_required (checks : list check) :
  get_field "required" (getNumberConstraints checks) = None.
Proof.
  unfold getNumberConstraints. rewrite loop_no_write; [done|].
  intros o [k v inc re ver]. unfold getNumberConstraints_step. simpl.
  destruct inc as [[]|]; case_kind; simpl; get_set; done.
Qed.

Lemma required_within_wrapper (key : string) (v : json) (o : obj) :
  key <> "required" -> key <> "properties" ->
  required_within_properties o ->
  required_within_properties (set_field key v o).
Proof.
  intros Hrequired Hproperties. unfold required_within_properties.
  by rewrite !get_set_ne by done.
Qed.

Lemma required_within_description (text : option string) (o : obj) :
  required_within_properties o ->
  required_within_properties (add_description text o).
Proof.
  unfold required_within_properties.
  by rewrite !get_add_description by discriminate.
Qed.

(** X7. In every converted node, a [required] list is never empty and
    every entry of it other than [__proto__] is the name of a key of the
    node's [properties]; this holds through optional, nullable, default
    and effects wrappers. *)
Theorem required_names_are_properties :
  forall zodSchema : option zod,
    required_within_properties (convert zodSchema).
Proof.
  intros [z|]; [|exact I]. simpl. revert z.
  fix IH 1. intros [|text d]; [exact I|].
  simpl. apply required_within_description.
  destruct d as [checks|checks|checks| | |values|values|value|shape unknownKeys
                |type minLength maxLength|valueType|innerType|innerType
                |innerType defaultValue|options|lhs rhs|schema| | | | |typeName];
    try exact I.
  - unfold required_within_properties. by rewrite convertString_required.
  - unfold required_within_properties, convertNumber.
    by rewrite get_spread_None by apply getNumberConstraints_required.
  - unfold required_within_properties.
    by rewrite get_spread_None by apply getNumberConstraints_required.
  - apply convertObject_required_within.
  - unfold required_within_properties. by destruct minLength, maxLength.
  - apply IH.
  - apply required_within_wrapper; [discriminate..|apply IH].
  - destruct defaultValue;
      [apply required_within_wrapper; [discriminate..|]|]; apply IH.
  - apply IH.
Qed.

(** ** Descriptions and wrappers *)

Lemma convertNode_wrapper_fields (text : option string) (d : zdef) (x : zod)
    (key : string) :
  wraps d x ->
  key <> "nullable" -> key <> "default" -> key <> "description" ->
  get_field key (convertNode (Def text d)) = get_field key (convertNode x).
Proof.
  intros Hwraps Hnullable Hdefault Hdescription. simpl.
  rewrite get_add_description by done.
  destruct Hwraps as [->|[->|[->|[defaultValue ->]]]]; try done.
  - by rewrite get_set_ne.
  - destruct defaultValue; [by rewrite get_set_ne|done].
Qed.

(** X8. A node with a non-empty description converts to a node with
    that description, whatever its variant, so that the description of a
    wrapper hides the one of the node it wraps; an optional, nullable,
    default or effects wrapper without a description shows the
    description of the node it wraps. *)
Theorem description_precedence (text : option string) (d : zdef) :
  (truthy text = true ->
   get_field "description" (convert (Some (Def text d)))
   = Some (JStr (default "" text))) /\
  (forall x, truthy text = false -> wraps d x ->
   get_field "description" (convert (Some (Def text d)))
   = get_field "description" (convert (Some x))).
Proof.
  split.
  - intros Htruthy. simpl. unfold add_description.
    destruct text as [s|]; [|done]. rewrite Htruthy. apply get_set_eq.
  - intros x Hfalsy Hwraps. simpl.
    rewrite add_description_falsy by done.
    destruct Hwraps as [->|[->|[->|[defaultValue ->]]]]; try done.
    + by rewrite get_set_ne.
    + destruct defaultValue; [by rewrite get_set_ne|done].
Qed.

Lemma description_precedence_witness :
  get_field "description"
    (convert (Some (Def (Some "Login name")
       (ZodNullable (Def (Some "Any text") (ZodString []))))))
  = Some (JStr "Login name") /\
  get_field "description"
    (convert (Some (Def None
       (ZodNullable (Def (Some "Any text") (ZodString []))))))
  = Some (JStr "Any text").
Proof.
  split.
  - exact (proj1 (description_precedence (Some "Login name")
                    (ZodNullable (Def (Some "Any text") (ZodString []))))
                 eq_refl).
  - exact (proj2 (description_precedence None
                    (ZodNullable (Def (Some "Any text") (ZodString []))))
                 (Def (Some "Any text") (ZodString [])) eq_refl
                 (or_intror (or_introl eq_refl))).
Defined.

(** X9. A nullable wrapper adds [nullable: true] to the conversion of
    its inner node, and a default wrapper whose producer returns a value
    adds that value as [default]; apart from that field and the
    description, every field is the one of the inner node's conversion.
    A default wrapper whose producer throws changes no field but the
    description. *)
Theorem nullable_default_fields (text : option string) (x : zod) (key : string) :
  get_field "nullable" (convert (Some (Def text (ZodNullable x))))
  = Some (JBool true) /\
  (forall v, get_field "default" (convert (Some (Def text (ZodDefault x (Some v)))))
             = Some v) /\
  (key <> "nullable" -> key <> "description" ->
   get_field key (convert (Some (Def text (ZodNullable x))))
   = get_field key (convert (Some x))) /\
  (key <> "default" -> key <> "description" ->
   forall defaultValue,
     get_field key (convert (Some (Def text (ZodDefault x defaultValue))))
     = get_field key (convert (Some x))) /\
  (key <> "description" ->
   get_field key (convert (Some (Def text (ZodDefault x None))))
   = get_field key (convert (Some x))).
Proof.
  simpl. repeat split.
  - rewrite get_add_description by discriminate. apply get_set_eq.
  - intros v. rewrite get_add_description by discriminate. apply get_set_eq.
  - intros Hnullable Hdescription.
    rewrite get_add_description by done. by rewrite get_set_ne.
  - intros Hdefault Hdescription defaultValue.
    rewrite get_add_description by done.
    destruct defaultValue; [by rewrite get_set_ne|done].
  - intros Hdescription. by rewrite get_add_description.
Qed.

Lemma nullable_default_fields_witness :
  get_field "format"
    (convert (Some (Def None (ZodNullable (Def None ZodDate)))))
  = get_field "format" (convert (Some (Def None ZodDate))).
Proof.
  apply (nullable_default_fields None (Def None ZodDate) "format");
    discriminate.
Defined.

(** X10. An array node converts to type [array] with [items] the
    conversion of its element node; [minItems] and [maxItems] are set
    exactly when the node declares a minimum and a maximum length, to the
    declared values. *)
Theorem array_bounds (description : option string) (type : zod)
    (minLength maxLength : option json) :
  let schema :=
    convert (Some (Def description (ZodArray type minLength maxLength))) in
  get_field "type" schema = Some (JStr "array") /\
  get_field "items" schema = Some (JObj (convert (Some type))) /\
  get_field "minItems" schema = minLength /\
  get_field "maxItems" schema = maxLength.
Proof.
  simpl. rewrite !get_add_description by discriminate.
  destruct minLength, maxLength; repeat split; get_set; done.
Qed.

(** ** Parameters of object schemas *)

(** The parameters depend on the [properties] and [required] fields
    only. *)
Lemma generateParameters_fields (z z' : zod) (location : string) :
  get_field "properties" (convertNode z) = get_field "properties" (convertNode z') ->
  get_field "required" (convertNode z) = get_field "required" (convertNode z') ->
  generateParameters z location = generateParameters z' location.
Proof.
  unfold generateParameters, convert. by intros -> ->.
Qed.

(** X11. A params or query schema wrapped as optional, nullable, default
    or effects (a refined or transformed object, say), with or without a
    description, contributes the same parameters as the schema it
    wraps. *)
Theorem wrapped_schema_parameters (description : option string) (d : zdef)
    (x : zod) (location : string) (Hwraps : wraps d x) :
  generateParameters (Def description d) location
  = generateParameters x location.
Proof.
  apply generateParameters_fields;
    by apply convertNode_wrapper_fields.
Qed.

Lemma wrapped_schema_parameters_witness :
  generateParameters
    (Def (Some "Paging") (ZodEffects
       (Def None (ZodObject [("page", Def None (ZodOptional (Def None (ZodInt []))))]
                            "strip")))) "query"
  = [ {| p_name := "page"; p_in := "query"; p_required := false;
         p_schema := JObj [("type", JStr "integer")];
         p_description := None |} ].
Proof.
  rewrite (wrapped_schema_parameters (Some "Paging") _
             (Def None (ZodObject [("page", Def None (ZodOptional (Def None (ZodInt []))))]
                                  "strip")) "query");
    [reflexivity|].
  right. right. by left.
Defined.

(** X12. Every parameter generated for location [path] is marked
    required and carries that location, whatever the schema and whether
    or not the property is optional in it. *)
Theorem path_parameters_required (zodSchema : zod) :
  Forall (fun parameter => p_required parameter = true
                           /\ p_in parameter = "path")
         (generateParameters zodSchema "path").
Proof.
  unfold generateParameters.
  destruct (get_field "properties" (convert (Some zodSchema))) as [[| | | | |properties]|];
    try by apply Forall_nil.
  apply Forall_forall. intros parameter Hin.
  apply list_elem_of_fmap in Hin as ([name schema] & -> & _). simpl.
  by rewrite orb_true_r.
Qed.

Lemma includes_required_names (name : string) (names : list string) :
  includes name (match names with
                 | [] => None
                 | _ :: _ => Some (JArr (map JStr names))
                 end)
  = bool_decide (name ∈ names).
Proof.
  assert (existsb (fun item => match item with
                               | JStr s => String.eqb s name
                               | _ => false
                               end) (map JStr names)
          = bool_decide (name ∈ names)) as Hexists.
  { induction names as [|n names IH]; simpl; [done|].
    rewrite IH. destruct (String.eqb_spec n name) as [->|Hne]; simpl.
    - symmetry. apply bool_decide_eq_true. apply elem_of_cons. by left.
    - apply bool_decide_ext. rewrite elem_of_cons. naive_solver. }
  destruct names; [done|]. exact Hexists.
Qed.

Lemma required_names_unique (shape : list (string * zod)) (name : string) (node : zod) :
  NoDup (map fst shape) -> (name, node) ∈ shape ->
  bool_decide (name ∈ required_names shape) = negb (wrapper_discriminant node).
Proof.
  intros Hkeys Hin.
  destruct (wrapper_discriminant node) eqn:Hwrapper; simpl.
  - apply bool_decide_eq_false. intros Hrequired.
    apply required_names_spec in Hrequired as (node' & Hin' & Hwrapper').
    assert (node' = node) as ->; [|congruence].
    apply list_elem_of_lookup in Hin as [i Hi], Hin' as [j Hj].
    assert (i = j) as ->; [|congruence].
    apply (NoDup_lookup _ _ _ name Hkeys); rewrite list_lookup_fmap;
      [by rewrite Hi | by rewrite Hj].
  - apply bool_decide_eq_true. apply required_names_spec. by exists node.
Qed.

(** X13. For an object schema whose shape has distinct keys, none of
    them [__proto__], the parameters are, in the order of the shape, one
    per property: named after the key, with the conversion of the
    property's node as schema and that conversion's description as
    description; a query parameter is required exactly when its
    property's own discriminant is not optional, nullable or default, a
    path parameter always. *)
Theorem object_schema_parameters (description : option string)
    (shape : list (string * zod)) (unknownKeys location : string)
    (Hkeys : NoDup (map fst shape))
    (Hproto : "__proto__" ∉ map fst shape) :
  generateParameters (Def description (ZodObject shape unknownKeys)) location
  = map (property_parameter location) shape.
Proof.
  unfold generateParameters. simpl convert.
  simpl convertNode. rewrite !get_add_description by discriminate.
  rewrite convertObject_required.
  rewrite convertObject_fields by discriminate. simpl get_field.
  rewrite convertObject_loop_properties by done. simpl app.
  rewrite map_map. apply map_ext_in. intros [name node] Hin.
  apply list_elem_of_In in Hin. simpl. unfold property_parameter. simpl.
  f_equal.
  rewrite <- (required_names_unique shape name node Hkeys Hin).
  f_equal.
  pose proof (includes_required_names name (required_names shape)) as Hincludes.
  by destruct (required_names shape).
Qed.

Lemma object_schema_parameters_witness :
  generateParameters
    (Def None (ZodObject
       [("page", Def None (ZodDefault (Def None (ZodInt [])) (Some (JNum 1))));
        ("search", Def (Some "Free text") (ZodString []))] "strip")) "query"
  = [ {| p_name := "page"; p_in := "query"; p_required := false;
         p_schema := JObj [("type", JStr "integer"); ("default", JNum 1)];
         p_description := None |};
      {| p_name := "search"; p_in := "query"; p_required := true;
         p_schema := JObj [("type", JStr "string"); ("description", JStr "Free text")];
         p_description := Some "Free text" |} ].
Proof.
  rewrite object_schema_parameters; [reflexivity| |].
  - refine (bool_decide_unpack _ _). vm_compute. exact I.
  - refine (bool_decide_unpack _ _). vm_compute. exact I.
Defined.

(** A property under the own key [__proto__] gives no parameter. *)
Example proto_key_no_parameter :
  generateParameters
    (Def None (ZodObject
       [("__proto__", Def None (ZodString [])); ("a", Def None ZodBoolean)] "strip"))
    "query"
  = [ {| p_name := "a"; p_in := "query"; p_required := true;
         p_schema := JObj [("type", JStr "boolean")];
         p_description := None |} ].
Proof. reflexivity. Qed.

(** ** Responses, request body and the other fields of an operation *)

Lemma computedResponses_lookup (route : Route) (key : string) :
  computedResponses route !! key
  = if decide (key = "500") then Some (ref "#/components/responses/ServerError")
    else if decide (key = "404") then
      (if absent (paramsSchema route) then None
       else Some (ref "#/components/responses/NotFoundError"))
    else if decide (key = "422") then
      (if absent (bodySchema route) then None
       else Some (ref "#/components/responses/ValidationError"))
    else if decide (key = "403") then
      (if auth route then Some (ref "#/components/responses/ForbiddenError")
       else None)
    else if decide (key = "401") then
      (if auth route then Some (ref "#/components/responses/UnauthorizedError")
       else None)
    else if decide (key = successCode route) then Some (successResponse route)
    else None.
Proof.
  unfold computedResponses.
  destruct (successCode_cases route) as [-> | [-> | ->]];
    destruct (auth route), (bodySchema route), (paramsSchema route); simpl;
    repeat case_decide; subst;
    repeat (rewrite lookup_insert_eq || rewrite lookup_insert_ne by congruence);
    try done.
Qed.

(** X14. Each conditional response has its own trigger, whatever the
    others are: before the overrides, 401 and 403 are the shared
    unauthorized and forbidden references exactly when the auth flag is
    set, 422 the validation reference exactly when a body schema is
    declared, 404 the not-found reference exactly when a params schema is
    declared, 500 the server-error reference always; no key other than
    these and the success code is computed. *)
Theorem computed_response_entries (route : Route) :
  computedResponses route !! "401"
  = (if auth route then Some (ref "#/components/responses/UnauthorizedError")
     else None) /\
  computedResponses route !! "403"
  = (if auth route then Some (ref "#/components/responses/ForbiddenError")
     else None) /\
  computedResponses route !! "422"
  = (if absent (bodySchema route) then None
     else Some (ref "#/components/responses/ValidationError")) /\
  computedResponses route !! "404"
  = (if absent (paramsSchema route) then None
     else Some (ref "#/components/responses/NotFoundError")) /\
  computedResponses route !! "500"
  = Some (ref "#/components/responses/ServerError") /\
  (forall key,
     key ∉ [successCode route; "401"; "403"; "422"; "404"; "500"] ->
     computedResponses route !! key = None).
Proof.
  repeat split; try (rewrite computedResponses_lookup; reflexivity).
  intros key Hkey. rewrite computedResponses_lookup.
  repeat case_decide; try done; subst; exfalso; apply Hkey;
    rewrite !elem_of_cons; tauto.
Qed.

(** X15. The key set of the final response map is that of the computed
    map together with the keys of the overrides: an override never
    removes a response, so the success code and 500 are always keys of
    the final map, and a key without an override keeps its computed
    response. *)
Theorem final_response_keys (route : Route) :
  dom (generateResponses route)
  = dom (customResponses route) ∪ dom (computedResponses route) /\
  successCode route ∈ dom (generateResponses route) /\
  "500" ∈ dom (generateResponses route) /\
  (forall key, customResponses route !! key = None ->
               generateResponses route !! key = computedResponses route !! key).
Proof.
  assert (dom (generateResponses route)
          = dom (customResponses route) ∪ dom (computedResponses route)) as Hdom.
  { unfold generateResponses, Object_assign. apply dom_union_L. }
  split; [done|]. rewrite Hdom. repeat split.
  - apply elem_of_union_r, elem_of_dom.
    rewrite computedResponses_success. by eexists.
  - apply elem_of_union_r, elem_of_dom.
    rewrite computedResponses_lookup. by eexists.
  - apply generateResponses_not_overridden.
Qed.

(** X16. An operation has a request body exactly when the route declares
    a body schema and its method is post, put or patch; the body is then
    required JSON whose schema is the conversion of the body schema.  The
    422 response depends on the body schema alone: a route of any other
    method that declares a body schema documents 422 and no request
    body. *)
Theorem request_body_rule (route : Route) :
  (is_Some (op_requestBody (generateOperation route)) <->
   is_Some (bodySchema route) /\ method route ∈ ["post"; "put"; "patch"]) /\
  (forall body, bodySchema route = Some body ->
     method route ∈ ["post"; "put"; "patch"] ->
     op_requestBody (generateOperation route)
     = Some (JObj [("required", JBool true);
                   ("content",
                    JObj [("application/json",
                           JObj [("schema", JObj (convert (Some body)))])])])) /\
  (is_Some (bodySchema route) -> method route ∉ ["post"; "put"; "patch"] ->
   op_requestBody (generateOperation route) = None /\
   computedResponses route !! "422"
   = Some (ref "#/components/responses/ValidationError")).
Proof.
  assert (existsb (String.eqb (method route)) ["post"; "put"; "patch"] = true
          <-> method route ∈ ["post"; "put"; "patch"]) as Hmethod.
  { rewrite existsb_exists. split.
    - intros (m & Hin & Heq). apply String.eqb_eq in Heq. subst m.
      by apply list_elem_of_In.
    - intros Hin. exists (method route). split; [by apply list_elem_of_In|].
      apply String.eqb_refl. }
  assert (op_requestBody (generateOperation route)
          = match bodySchema route with
            | Some body =>
                if existsb (String.eqb (method route)) ["post"; "put"; "patch"]
                then Some (JObj [("required", JBool true);
                                 ("content",
                                  JObj [("application/json",
                                         JObj [("schema",
                                                JObj (convert (Some body)))])])])
                else None
            | None => None
            end) as -> by reflexivity.
  destruct (existsb (String.eqb (method route)) ["post"; "put"; "patch"])
    eqn:Hexists.
  - assert (method route ∈ ["post"; "put"; "patch"]) as Hin by by apply Hmethod.
    split; [|split].
    + destruct (bodySchema route) as [body|].
      * split; [by intros _; split; [eexists|] | by eexists].
      * split; [by intros [? ?] | by intros [[? ?] _]].
    + by intros body -> _.
    + by intros _ Hnotin.
  - assert (method route ∉ ["post"; "put"; "patch"]) as Hnotin.
    { intros Hin. apply Hmethod in Hin. congruence. }
    split; [|split].
    + destruct (bodySchema route) as [body|].
      * split; [by intros [? ?] | by intros [_ ?]].
      * split; [by intros [? ?] | by intros [[? ?] _]].
    + by intros body _ Hin.
    + intros [body Hbody] _. rewrite Hbody. split; [done|].
      rewrite computedResponses_lookup. simpl. by rewrite Hbody.
Qed.

Lemma request_body_rule_witness :
  let route :=
    api_get "/search"
      {| cfg_summary := None; cfg_description := None; cfg_tags := None;
         cfg_auth := None; cfg_body := Some (Def None (ZodString []));
         cfg_query := None; cfg_params := None; cfg_response := None;
         cfg_responses := None |} in
  op_requestBody (generateOperation route) = None /\
  computedResponses route !! "422"
  = Some (ref "#/components/responses/ValidationError").
Proof.
  intros route.
  apply (proj2 (proj2 (request_body_rule route))); [by eexists|].
  unfold route. simpl. rewrite !elem_of_cons, elem_of_nil.
  intros [H|[H|[H|[]]]]; discriminate H.
Defined.




(** ** Operation identifiers of composed paths *)

Lemma lower_upper_ascii (c : ascii) :
  lower_ascii (upper_ascii c) = lower_ascii c.
Proof.
  destruct c as [[] [] [] [] [] [] [] []]; reflexivity.
Qed.

Lemma toLowerCase_toUpperCase (s : string) :
  toLowerCase (toUpperCase s) = toLowerCase s.
Proof.
  induction s as [|c s IH]; simpl; [done|].
  by rewrite lower_upper_ascii, IH.
Qed.

Lemma lower_lower_ascii (c : ascii) :
  lower_ascii (lower_ascii c) = lower_ascii c.
Proof.
  destruct c as [[] [] [] [] [] [] [] []]; reflexivity.
Qed.

Lemma toLowerCase_idempotent (s : string) :
  toLowerCase (toLowerCase s) = toLowerCase s.
Proof.
  induction s as [|c s IH]; simpl; [done|].
  by rewrite lower_lower_ascii, IH.
Qed.

Lemma str_split_not_nil (sep : ascii) (s : string) : str_split sep s <> [].
Proof.
  destruct s as [|c s]; simpl; [done|].
  destruct (Ascii.eqb c sep); [done|]. by destruct (str_split sep s).
Qed.

Lemma str_split_append (sep : ascii) (p q : string) :
  str_split sep (p +:+ String sep q) = str_split sep p ++ str_split sep q.
Proof.
  induction p as [|c p IH]; simpl.
  - by rewrite Ascii.eqb_refl.
  - rewrite IH. destruct (Ascii.eqb c sep); [done|].
    pose proof (str_split_not_nil sep p) as Hnil.
    by destruct (str_split sep p).
Qed.

Lemma append_assoc (s t u : string) : (s +:+ t) +:+ u = s +:+ (t +:+ u).
Proof.
  induction s as [|c s IH]; [done|].
  change (String c ((s +:+ t) +:+ u) = String c (s +:+ (t +:+ u))).
  by rewrite IH.
Qed.

Lemma append_empty_r (s : string) : s +:+ "" = s.
Proof.
  induction s as [|c s IH]; [done|].
  change (String c (s +:+ "") = String c s). by rewrite IH.
Qed.

Lemma join_app (l l' : list string) : join (l ++ l') = join l +:+ join l'.
Proof.
  induction l as [|s l IH]; [done|].
  change (join ((s :: l) ++ l')) with (s +:+ join (l ++ l')).
  change (join (s :: l)) with (s +:+ join l).
  rewrite IH. symmetry. apply append_assoc.
Qed.

Lemma segments_append (p q : string) :
  segments (p +:+ "/" +:+ q) = segments p ++ segments q.
Proof.
  unfold segments.
  change (p +:+ "/" +:+ q) with (p +:+ String "/" q).
  by rewrite str_split_append, List.filter_app.
Qed.

(** X18. The operation identifier depends on the method up to case and
    on the non-empty segments of the path only: the identifier of
    [p/q] is the identifier of [p] followed by the name part of [q], so a
    leading, trailing or doubled slash changes nothing. *)
Theorem operationId_composes (method_ p q : string) :
  generateOperationId method_ (p +:+ "/" +:+ q)
  = generateOperationId method_ p +:+ generateOperationId "" q /\
  generateOperationId method_ (p +:+ "/") = generateOperationId method_ p /\
  generateOperationId method_ ("/" +:+ p) = generateOperationId method_ p /\
  generateOperationId (toUpperCase method_) p = generateOperationId method_ p /\
  generateOperationId (toLowerCase method_) p = generateOperationId method_ p.
Proof.
  assert (forall a b,
    generateOperationId method_ (a +:+ "/" +:+ b)
    = generateOperationId method_ a +:+ generateOperationId "" b) as Hcompose.
  { intros a b. unfold generateOperationId.
    fold (segments (a +:+ "/" +:+ b)). fold (segments a). fold (segments b).
    rewrite segments_append, map_app, join_app.
    change (toLowerCase "") with "".
    change ("" +:+ join (map operationId_part (segments b)))
      with (join (map operationId_part (segments b))).
    symmetry. apply append_assoc. }
  split; [|split; [|split; [|split]]].
  - apply Hcompose.
  - transitivity (generateOperationId method_ p +:+ generateOperationId "" "");
      [exact (Hcompose p "")|].
    change (generateOperationId "" "") with "". apply append_empty_r.
  - transitivity (generateOperationId method_ "" +:+ generateOperationId "" p);
      [exact (Hcompose "" p)|].
    change (generateOperationId method_ "") with (toLowerCase method_ +:+ "").
    rewrite append_empty_r. reflexivity.
  - unfold generateOperationId. by rewrite toLowerCase_toUpperCase.
  - unfold generateOperationId. by rewrite toLowerCase_idempotent.
Qed.

Example operationId_slashes :
  generateOperationId "Get" "//users/{id}/" = "getUsersById".
Proof. reflexivity. Qed.

(** ** The paths mapping as a whole *)

Lemma generateDocs_step_dom paths (route : Route) :
  inherited (path route) = false ->
  dom (generateDocs_step paths route) = {[ path route ]} ∪ dom paths.
Proof.
  intros Hplain. rewrite generateDocs_step_plain by done.
  rewrite dom_insert_L. set_solver.
Qed.

Lemma generateDocs_loop_dom (routes : list Route) paths :
  Forall (fun route => inherited (path route) = false) routes ->
  dom (fold_left generateDocs_step routes paths)
  = dom paths ∪ list_to_set (path <$> routes).
Proof.
  intros Hplain. revert paths.
  induction Hplain as [|route routes Hroute _ IH]; intros paths; simpl.
  - set_solver.
  - rewrite IH, generateDocs_step_dom by done. set_solver.
Qed.

Lemma generateDocs_step_not_empty paths (route : Route) :
  methods_not_empty paths -> methods_not_empty (generateDocs_step paths route).
Proof.
  intros Hpaths p operations. unfold generateDocs_step.
  destruct (paths !! path route) as [found|] eqn:Hpath.
  - rewrite Hpath.
    destruct (decide (p = path route)) as [->|Hne].
    + rewrite lookup_insert_eq. intros [= <-]. apply insert_non_empty.
    + rewrite lookup_insert_ne by done. apply Hpaths.
  - destruct (inherited (path route)).
    + rewrite Hpath. apply Hpaths.
    + rewrite lookup_insert_eq.
      destruct (decide (p = path route)) as [->|Hne].
      * rewrite lookup_insert_eq. intros [= <-]. apply insert_non_empty.
      * rewrite !lookup_insert_ne by done. apply Hpaths.
Qed.

Lemma generateDocs_loop_not_empty (routes : list Route) paths :
  methods_not_empty paths ->
  methods_not_empty (fold_left generateDocs_step routes paths).
Proof.
  revert paths. induction routes as [|route routes IH]; intros paths Hpaths;
    simpl; [done|].
  by apply IH, generateDocs_step_not_empty.
Qed.

(** Under a path of the mapping, the method map binds what the lookup
    of a path and method finds. *)
Lemma generateDocs_methods (routes : list Route) (p : string)
    (operations : gmap string Operation) (m : string) :
  Forall (fun route => inherited (path route) = false) routes ->
  generateDocs routes !! p = Some operations ->
  operations !! m = generateOperation <$> latest_route p m routes.
Proof.
  intros Hplain Hlookup.
  pose proof (generateDocs_loop_lookup routes ∅ p m Hplain) as Hloop.
  unfold lookup_operation in Hloop. fold (generateDocs routes) in Hloop.
  rewrite Hlookup in Hloop. simpl in Hloop. rewrite Hloop.
  by destruct (latest_route p m routes).
Qed.

(** X19. For routes whose paths begin with a slash, the keys of the
    paths mapping are exactly the paths of the routes of the list; no
    path is bound to an empty method map, and under a path the methods
    are exactly those of the routes declared at it. *)
Theorem generateDocs_keys (routes : list Route)
    (Hslash : Forall (fun route => startsWith "/" (path route) = true) routes) :
  dom (generateDocs routes) = list_to_set (path <$> routes) /\
  (forall p operations,
     generateDocs routes !! p = Some operations ->
     operations <> ∅ /\
     forall m, m ∈ dom operations <->
               exists route, route ∈ routes /\ path route = p /\ method route = m).
Proof.
  assert (Forall (fun route => inherited (path route) = false) routes)
    as Hplain by by apply slash_paths_not_inherited.
  split.
  - unfold generateDocs. rewrite generateDocs_loop_dom by done. set_solver.
  - intros p operations Hlookup. split.
    + revert p operations Hlookup. apply generateDocs_loop_not_empty.
      intros p operations Hempty. by rewrite lookup_empty in Hempty.
    + intros m.
      rewrite elem_of_dom, (generateDocs_methods routes p operations m Hplain Hlookup).
      unfold latest_route. split.
      * intros [operation Hsome].
        destruct (last _) as [route|] eqn:Hlast; [|done].
        apply last_Some_elem_of, list_elem_of_In, filter_In in Hlast
          as [Hin Hdeclared].
        apply andb_true_iff in Hdeclared as [Hp Hm'].
        apply String.eqb_eq in Hp, Hm'.
        exists route. by split; [apply list_elem_of_In|].
      * intros (route & Hin & Hp & Hm').
        assert (route ∈ List.filter (declared_at p m) routes) as Hfiltered.
        { apply list_elem_of_In, filter_In. split; [by apply list_elem_of_In|].
          unfold declared_at. rewrite Hp, Hm'. by rewrite !String.eqb_refl. }
        destruct (last _) as [found|] eqn:Hlast; [by eexists|].
        apply last_None in Hlast. rewrite Hlast in Hfiltered.
        by apply elem_of_nil in Hfiltered.
Qed.

Lemma latest_route_elem (routes : list Route) (p m : string) (route : Route) :
  latest_route p m routes = Some route ->
  route ∈ routes /\ declared_at p m route = true.
Proof.
  unfold latest_route. intros Hlast.
  apply last_Some_elem_of, list_elem_of_In, filter_In in Hlast as [Hin Hdeclared].
  by split; [apply list_elem_of_In|].
Qed.

Lemma declared_at_key (p m : string) (route : Route) :
  declared_at p m route = true <-> route_key route = (p, m).
Proof.
  unfold declared_at, route_key. rewrite andb_true_iff, !String.eqb_eq.
  split; [by intros [-> ->] | by intros [= -> ->]].
Qed.

Lemma route_key_unique (routes : list Route) (r r' : Route) :
  NoDup (route_key <$> routes) -> r ∈ routes -> r' ∈ routes ->
  route_key r = route_key r' -> r = r'.
Proof.
  intros Hkeys Hr Hr' Hkey.
  apply list_elem_of_lookup in Hr as [i Hi], Hr' as [j Hj].
  assert (i = j) as ->; [|congruence].
  apply (NoDup_lookup _ _ _ (route_key r) Hkeys); rewrite list_lookup_fmap;
    [by rewrite Hi | by rewrite Hj, Hkey].
Qed.

(** With distinct keys, the latest route at a pair is the only one. *)
Lemma latest_route_unique (routes : list Route) (p m : string) (route : Route) :
  NoDup (route_key <$> routes) ->
  latest_route p m routes = Some route <->
  route ∈ routes /\ declared_at p m route = true.
Proof.
  intros Hkeys. split; [apply latest_route_elem|].
  intros [Hin Hdeclared].
  destruct (latest_route p m routes) as [found|] eqn:Hlatest.
  - apply latest_route_elem in Hlatest as [Hfound Hdeclared'].
    f_equal. apply (route_key_unique routes); try done.
    apply declared_at_key in Hdeclared, Hdeclared'. congruence.
  - unfold latest_route in Hlatest. apply last_None in Hlatest.
    assert (route ∈ List.filter (declared_at p m) routes) as Hfiltered.
    { apply list_elem_of_In, filter_In. by split; [apply list_elem_of_In|]. }
    rewrite Hlatest in Hfiltered. by apply elem_of_nil in Hfiltered.
Qed.

Lemma latest_route_Permutation (routes routes' : list Route) (p m : string) :
  NoDup (route_key <$> routes) -> routes ≡ₚ routes' ->
  latest_route p m routes = latest_route p m routes'.
Proof.
  intros Hkeys Hperm.
  assert (NoDup (route_key <$> routes')) as Hkeys' by by rewrite <- Hperm.
  destruct (latest_route p m routes) as [route|] eqn:Hlatest.
  - symmetry. apply latest_route_unique; [done|].
    apply latest_route_unique in Hlatest as [Hin Hdeclared]; [|done].
    split; [by rewrite <- Hperm | done].
  - destruct (latest_route p m routes') as [route'|] eqn:Hlatest'; [|done].
    apply latest_route_unique in Hlatest' as [Hin Hdeclared]; [|done].
    assert (latest_route p m routes = Some route') as Hsome.
    { apply latest_route_unique; [done|]. split; [by rewrite Hperm | done]. }
    congruence.
Qed.

(** X20. When the paths of the routes begin with a slash and no two
    routes of the list share path and method, the bindings of the paths
    mapping do not depend on the order of the list: any reordering of the
    routes gives a mapping with the same paths and, under every path and
    method, the same operation.  (The order in which the keys are listed
    is not part of the statement.) *)
Theorem generateDocs_order_irrelevant (routes routes' : list Route)
    (Hslash : Forall slash_path routes)
    (Hkeys : NoDup (route_key <$> routes))
    (Hreordered : routes ≡ₚ routes') :
  dom (generateDocs routes) = dom (generateDocs routes') /\
  forall p m,
    lookup_operation (generateDocs routes) p m
    = lookup_operation (generateDocs routes') p m.
Proof.
  assert (Forall slash_path routes') as Hslash' by by rewrite <- Hreordered.
  apply slash_paths_not_inherited in Hslash, Hslash'.
  split.
  - unfold generateDocs. rewrite !generateDocs_loop_dom by done.
    by rewrite Hreordered.
  - intros p m. unfold generateDocs.
    rewrite !generateDocs_loop_lookup by done.
    by rewrite (latest_route_Permutation routes routes').
Qed.

Lemma generateDocs_order_irrelevant_witness :
  lookup_operation
    (generateDocs [api_get "/users" sample_config; api_post "/users" sample_config;
                   api_delete "/users/{id}" (delete_config None)])
    "/users" "post"
  = lookup_operation
      (generateDocs [api_delete "/users/{id}" (delete_config None);
                     api_post "/users" sample_config;
                     api_get "/users" sample_config])
      "/users" "post".
Proof.
  apply generateDocs_order_irrelevant.
  - repeat constructor.
  - refine (bool_decide_unpack _ _). vm_compute. exact I.
  - etransitivity; [apply Permutation_swap|].
    etransitivity; [apply Permutation_skip, Permutation_swap|].
    apply Permutation_swap.
Defined.

(** X21. For routes whose paths begin with a slash, generating the
    paths of two lists one after the other binds a path and method
    declared in the second list as the second list binds them, and every
    other pair as the first list does. *)
Theorem generateDocs_append (routes routes' : list Route) (p m : string)
    (Hslash : Forall slash_path routes)
    (Hslash' : Forall slash_path routes') :
  lookup_operation (generateDocs (routes ++ routes')) p m
  = match lookup_operation (generateDocs routes') p m with
    | Some operation => Some operation
    | None => lookup_operation (generateDocs routes) p m
    end.
Proof.
  apply slash_paths_not_inherited in Hslash, Hslash'.
  unfold generateDocs. rewrite fold_left_app.
  rewrite !generateDocs_loop_lookup by done.
  destruct (latest_route p m routes'); [done|].
  by destruct (latest_route p m routes).
Qed.

Lemma generateDocs_append_witness :
  lookup_operation
    (generateDocs ([api_get "/users" sample_config]
                   ++ [api_get "/users" override_config])) "/users" "get"
  = Some (generateOperation (api_get "/users" override_config)).
Proof.
  rewrite (generateDocs_append [api_get "/users" sample_config]
             [api_get "/users" override_config] "/users" "get");
    [reflexivity | repeat constructor | repeat constructor].
Defined.

Lemma generateDocs_keys_witness :
  dom (generateDocs [api_get "/health" patch_config;
                     api_post "/users" sample_config])
  = {[ "/health"; "/users" ]}.
Proof.
  assert (Forall (fun route => startsWith "/" (path route) = true)
            [api_get "/health" patch_config; api_post "/users" sample_config])
    as Hslash by (repeat constructor).
  rewrite (proj1 (generateDocs_keys _ Hslash)).
  vm_compute list_to_set. set_solver.
Defined.

(** ** The deprecated [doc] helper *)

Lemma createRoute_method_case (m m' p : string) (config : RouteConfig) :
  toLowerCase m = toLowerCase m' -> createRoute m p config = createRoute m' p config.
Proof. unfold createRoute. by intros ->. Qed.

Lemma toLowerCase_empty (m : string) : toLowerCase m = "" -> m = "".
Proof. by destruct m. Qed.

(** X22. The deprecated [doc] helper dispatches on the method in lower
    case: with a method that is, up to case, get, post, put, patch or
    delete it returns the route that [createRoute] builds for that
    method; with a missing or empty method it documents a get route; with
    any other method (the inherited name [constructor] set aside) it
    returns no route, the call fails. *)
Theorem doc_dispatch (config : AutoDocs.DocConfig) :
  (forall m, AutoDocs.doc_method config = Some m ->
     toLowerCase m ∈ api_methods ->
     AutoDocs.doc config
     = Some (createRoute m (AutoDocs.doc_path config) (AutoDocs.doc_route config))) /\
  (AutoDocs.doc_method config = None \/ AutoDocs.doc_method config = Some "" ->
   AutoDocs.doc config
   = Some (createRoute "GET" (AutoDocs.doc_path config) (AutoDocs.doc_route config))) /\
  (forall m, AutoDocs.doc_method config = Some m -> m <> "" ->
     toLowerCase m ∉ api_methods -> toLowerCase m <> "constructor" ->
     AutoDocs.doc config = None).
Proof.
  unfold AutoDocs.doc, AutoDocs.doc_key, api_methods. split; [|split].
  - intros m -> Hin.
    assert (toLowerCase m <> "") as Hne.
    { intros Hempty. rewrite Hempty in Hin.
      by repeat (apply elem_of_cons in Hin as [?|Hin]);
        try apply elem_of_nil in Hin. }
    unfold truthy. apply String.eqb_neq in Hne. rewrite Hne. simpl negb. cbv iota.
    unfold AutoDocs.api.
    repeat (apply elem_of_cons in Hin as [Hm|Hin]; [rewrite Hm; simpl; f_equal;
      symmetry; by apply createRoute_method_case|]).
    by apply elem_of_nil in Hin.
  - by intros [-> | ->].
  - intros m -> Hm Hnotin _.
    assert (toLowerCase m <> "") as Hne.
    { intros Hempty. by apply toLowerCase_empty in Hempty. }
    unfold truthy. apply String.eqb_neq in Hne. rewrite Hne. simpl negb. cbv iota.
    unfold AutoDocs.api. rewrite !not_elem_of_cons in Hnotin.
    destruct Hnotin as (Hget & Hpost & Hput & Hpatch & Hdelete & _).
    apply String.eqb_neq in Hget, Hpost, Hput, Hpatch, Hdelete.
    by rewrite Hget, Hpost, Hput, Hpatch, Hdelete.
Qed.

Lemma doc_dispatch_witness :
  AutoDocs.doc {| AutoDocs.doc_method := Some "Patch";
                  AutoDocs.doc_path := "/users/{id}";
                  AutoDocs.doc_route := patch_config |}
  = Some (api_patch "/users/{id}" patch_config) /\
  AutoDocs.doc {| AutoDocs.doc_method := Some "HEAD";
                  AutoDocs.doc_path := "/users/{id}";
                  AutoDocs.doc_route := patch_config |}
  = None.
Proof.
  split.
  - refine (proj1 (doc_dispatch
               {| AutoDocs.doc_method := Some "Patch";
                  AutoDocs.doc_path := "/users/{id}";
                  AutoDocs.doc_route := patch_config |}) "Patch" eq_refl _).
    refine (bool_decide_unpack _ _). vm_compute. exact I.
  - refine (proj2 (proj2 (doc_dispatch
               {| AutoDocs.doc_method := Some "HEAD";
                  AutoDocs.doc_path := "/users/{id}";
                  AutoDocs.doc_route := patch_config |})) "HEAD" eq_refl _ _ _);
      [discriminate| |discriminate].
    refine (bool_decide_unpack _ _). vm_compute. exact I.
Defined.

(** ** Witnesses and the shape of [properties] *)

Lemma computed_response_entries_witness :
  computedResponses (api_get "/health" patch_config) !! "404" = None /\
  computedResponses (api_get "/health" patch_config) !! "409" = None.
Proof.
  split.
  - exact (proj1 (proj2 (proj2 (proj2
             (computed_response_entries (api_get "/health" patch_config)))))).
  - apply (computed_response_entries (api_get "/health" patch_config)).
    refine (bool_decide_unpack _ _). vm_compute. exact I.
Defined.

Lemma final_response_keys_witness :
  generateResponses (api_get "/reports" override_config) !! "500"
  = Some (ref "#/components/responses/ServerError").
Proof.
  rewrite (proj2 (proj2 (proj2
             (final_response_keys (api_get "/reports" override_config))))
             "500" eq_refl).
  reflexivity.
Defined.

(** X23. Whatever the input, the [properties] field of the converted
    node is either not set or an object, also below optional, nullable,
    default and effects wrappers: [generateParameters] can iterate over
    it. *)
Theorem properties_is_object (zodSchema : option zod) :
  object_or_absent (get_field "properties" (convert zodSchema)).
Proof.
  destruct zodSchema as [z|]; simpl; [|exact I].
  apply convertNode_properties.
Qed.
